(** * SqueezeNet v1.0 (composable): the graph builder of
    [zoo/squeezenet/squeezenet_c.py]

    The Python class assembles a Keras layer graph from a table of filter
    counts.  The development below embeds the class method by method:
    Python objects are a small universe of values, keyword dictionaries are
    finite maps from names to values, the list objects that the constructor
    mutates live in a store addressed by references, and every method is a
    computation in a state-and-exception monad over that store and over the
    layer graph built so far. *)

From Stdlib Require Import ZArith QArith Lia.
From stdpp Require Import base option list gmap strings.

Close Scope Q_scope.
Open Scope string_scope.
Open Scope list_scope.
Open Scope Z_scope.

(** ** Python objects *)

(** References to the list objects that can be shared and mutated. *)
Definition loc := positive.

(** The regularizer objects of [tensorflow.keras.regularizers]. *)
Inductive regularizer :=
| l2 (factor : Q).

(** A block of the configuration table: a dictionary with integer entries,
    such as [{ 'n_filters' : 16 }]. *)
Abbreviation block := (gmap string Z).

(** The values that travel through keyword arguments: [None], integers,
    floats, strings, regularizer objects, references to lists of groups,
    and a group (a list of blocks). *)
Inductive value :=
| VNone
| VInt (z : Z)
| VFloat (q : Q)
| VStr (s : string)
| VReg (r : regularizer)
| VList (l : loc)
| VBlocks (bs : list block).

(** Exceptions, by where they are raised: inside the tensor framework
    (layer constructors, layer calls), or by the Python runtime on one of
    the built-in operations the file applies to its configuration.
    [IllTyped] marks an operation on an object of a type the embedding does
    not follow (a [pop] on something that is not a list of groups, a
    product of something that is not a number). *)
Inductive exn :=
| FrameworkError (layer_name : string)
| IndexError
| KeyError (key : string)
| TypeError
| IllTyped.

Inductive result (A : Type) :=
| Ok (a : A)
| Raise (e : exn).
Arguments Ok {A} a.
Arguments Raise {A} e.

(** ** The framework's graph *)

Definition shape := list Z.

(** A symbolic tensor: the index of the node that produces it and its shape
    without the batch axis. *)
Record tensor := Tensor { node_index : nat; tensor_shape : shape }.

Inductive padding := same | valid.

(** Layer objects, after their constructor has checked the hyperparameters. *)
Inductive layer :=
| InputLayer (input_shape : shape)
| LConv2D (filters : Z) (kernel_size : Z * Z) (strides : Z * Z) (pad : padding)
          (activation : option string) (kernel_initializer : option string)
          (kernel_regularizer : option regularizer)
| LReLU (max_value : option Q)
| LMaxPooling2D (pool_size : Z * Z) (strides : Z * Z)
| LConcatenate
| LDropout (rate : Q)
| LGlobalAveragePooling2D
| LActivation (activation : string).

(** A node of the graph: the layer, the nodes its inputs come from, and the
    shape it produces. *)
Record node := Node { node_layer : layer; inbound : list nat; output_shape : shape }.

(** ** State and exceptions *)

(** The store holds the list objects (lists of groups) by reference; the
    graph is the sequence of nodes created so far. *)
Record state := State { heap : gmap loc (list (list block)); graph : list node }.

Definition M (A : Type) : Type := state -> result A * state.

Definition ret {A} (a : A) : M A := fun s => (Ok a, s).

Definition raise {A} (e : exn) : M A := fun s => (Raise e, s).

Definition bind {A B} (m : M A) (k : A -> M B) : M B :=
  fun s => match m s with
           | (Ok a, s') => k a s'
           | (Raise e, s') => (Raise e, s')
           end.

Definition lift {A} (r : result A) : M A := fun s => (r, s).

Notation "x <- m ;; k" := (bind m (fun x => k))
  (at level 100, m at next level, right associativity).

(** [for b in l: x = f(x, b)] *)
Fixpoint for_each {A B} (l : list B) (f : A -> B -> M A) (x : A) : M A :=
  match l with
  | [] => ret x
  | b :: l' => x' <- f x b ;; for_each l' f x'
  end.

(** ** The tensor framework

    The layer constructors and the layer call of [tensorflow.keras], as far
    as this file uses them.  A constructor checks its hyperparameters, a
    call infers the output shape from the input shapes; both raise
    [FrameworkError] otherwise.  Shapes leave the batch axis out and the
    data format is channels-last.  The checks are the documented
    preconditions of the layers: a filter count is a positive integer, a
    pooling window fits into its input, an axis has a positive size. *)
Module Keras.

(** An argument that is an integer or a pair of integers, such as
    [strides=2] or [strides=(2, 2)]. *)
Inductive size_arg :=
| Int (n : Z)
| Pair (h w : Z).

Definition normalize_tuple (a : size_arg) : Z * Z :=
  match a with
  | Int n => (n, n)
  | Pair h w => (h, w)
  end.

Definition positive_pair (p : Z * Z) : bool := (0 <? p.1) && (0 <? p.2).

Definition known_initializers : list string :=
  ["glorot_uniform"; "glorot_normal"; "he_uniform"; "he_normal";
   "lecun_uniform"; "lecun_normal"; "zeros"; "ones"; "constant"; "identity";
   "orthogonal"; "random_normal"; "random_uniform"; "truncated_normal";
   "variance_scaling"].

Definition known_activations : list string :=
  ["relu"; "softmax"; "sigmoid"; "tanh"; "linear"; "elu"; "selu";
   "softplus"; "softsign"].

Definition known (names : list string) (s : string) : bool :=
  bool_decide (s ∈ names).

Definition get_initializer (v : value) : option (option string) :=
  match v with
  | VNone => Some None
  | VStr s => if known known_initializers s then Some (Some s) else None
  | _ => None
  end.

Definition get_regularizer (v : value) : option (option regularizer) :=
  match v with
  | VNone => Some None
  | VReg r => Some (Some r)
  | _ => None
  end.

Definition get_padding (s : string) : option padding :=
  if String.eqb s "same" then Some same
  else if String.eqb s "valid" then Some valid
  else None.

Definition get_activation (a : option string) : option (option string) :=
  match a with
  | None => Some None
  | Some s => if known known_activations s then Some (Some s) else None
  end.

(** [Conv2D(filters, kernel_size, strides=..., padding=..., activation=...,
    kernel_initializer=..., kernel_regularizer=...)] *)
Definition Conv2D (filters : value) (kernel_size strides : size_arg)
    (pad : string) (activation : option string)
    (kernel_initializer kernel_regularizer : value) : result layer :=
  match filters, get_padding pad, get_activation activation,
        get_initializer kernel_initializer,
        get_regularizer kernel_regularizer with
  | VInt n, Some p, Some a, Some i, Some r =>
      if (0 <? n) && positive_pair (normalize_tuple kernel_size)
         && positive_pair (normalize_tuple strides)
      then Ok (LConv2D n (normalize_tuple kernel_size)
                 (normalize_tuple strides) p a i r)
      else Raise (FrameworkError "Conv2D")
  | _, _, _, _, _ => Raise (FrameworkError "Conv2D")
  end.

(** [ReLU(max_value)] *)
Definition ReLU (max_value : value) : result layer :=
  match max_value with
  | VNone => Ok (LReLU None)
  | VInt z => if 0 <=? z then Ok (LReLU (Some (inject_Z z)))
              else Raise (FrameworkError "ReLU")
  | VFloat q => if Qle_bool 0 q then Ok (LReLU (Some q))
                else Raise (FrameworkError "ReLU")
  | _ => Raise (FrameworkError "ReLU")
  end.

(** [MaxPooling2D(pool_size, strides=...)], padding ['valid']. *)
Definition MaxPooling2D (pool_size strides : size_arg) : result layer :=
  if positive_pair (normalize_tuple pool_size)
     && positive_pair (normalize_tuple strides)
  then Ok (LMaxPooling2D (normalize_tuple pool_size) (normalize_tuple strides))
  else Raise (FrameworkError "MaxPooling2D").

(** [Concatenate()], along the last axis. *)
Definition Concatenate : result layer := Ok LConcatenate.

(** [Dropout(rate)] *)
Definition Dropout (rate : value) : result layer :=
  match rate with
  | VFloat q => if Qle_bool 0 q && Qle_bool q 1 then Ok (LDropout q)
                else Raise (FrameworkError "Dropout")
  | VInt z => if (0 <=? z) && (z <=? 1) then Ok (LDropout (inject_Z z))
              else Raise (FrameworkError "Dropout")
  | _ => Raise (FrameworkError "Dropout")
  end.

(** [GlobalAveragePooling2D()] *)
Definition GlobalAveragePooling2D : result layer := Ok LGlobalAveragePooling2D.

(** [Activation(name)] *)
Definition Activation (name : string) : result layer :=
  if known known_activations name then Ok (LActivation name)
  else Raise (FrameworkError "Activation").

Definition layer_name (l : layer) : string :=
  match l with
  | InputLayer _ => "InputLayer"
  | LConv2D _ _ _ _ _ _ _ => "Conv2D"
  | LReLU _ => "ReLU"
  | LMaxPooling2D _ _ => "MaxPooling2D"
  | LConcatenate => "Concatenate"
  | LDropout _ => "Dropout"
  | LGlobalAveragePooling2D => "GlobalAveragePooling2D"
  | LActivation _ => "Activation"
  end.

(** Size of a spatial axis after a window of size [k] moves over it with
    stride [s]: with padding ['same'] the ceiling of [n / s]; with
    padding ['valid'] the window has to fit. *)
Definition window_output (p : padding) (n k s : Z) : option Z :=
  match p with
  | same => Some ((n + s - 1) / s)
  | valid => if k <=? n then Some ((n - k) / s + 1) else None
  end.

(** All inputs of a concatenation agree on every axis but the last; the
    last axes add up. *)
Fixpoint concatenate_shapes (lead : shape) (channels : Z) (rest : list shape)
    : option shape :=
  match rest with
  | [] => Some (lead ++ [channels])
  | s :: rest' =>
      match last s with
      | Some c =>
          if bool_decide (removelast s = lead)
          then concatenate_shapes lead (channels + c) rest'
          else None
      | None => None
      end
  end.

Definition compute_output_shape (l : layer) (inputs : list shape)
    : option shape :=
  match l, inputs with
  | InputLayer s, [] => Some s
  | LConv2D n (kh, kw) (sh, sw) p _ _ _, [[h; w; _]] =>
      match window_output p h kh sh, window_output p w kw sw with
      | Some h', Some w' => Some [h'; w'; n]
      | _, _ => None
      end
  | LReLU _, [s] => Some s
  | LMaxPooling2D (ph, pw) (sh, sw), [[h; w; c]] =>
      match window_output valid h ph sh, window_output valid w pw sw with
      | Some h', Some w' => Some [h'; w'; c]
      | _, _ => None
      end
  | LConcatenate, s :: ((_ :: _) as rest) =>
      match last s with
      | Some c => concatenate_shapes (removelast s) c rest
      | None => None
      end
  | LDropout _, [s] => Some s
  | LGlobalAveragePooling2D, [[_; _; c]] => Some [c]
  | LActivation _, [s] => Some s
  | _, _ => None
  end.

(** A node is added at the end of the graph; the tensor it produces
    carries the node's index. *)
Definition add_node (l : layer) (inputs : list tensor) (out : shape) : M tensor :=
  fun s =>
    (Ok (Tensor (length (graph s)) out),
     State (heap s) (graph s ++ [Node l (node_index <$> inputs) out])).

(** [layer(inputs)]: the constructor's result applied to tensors. *)
Definition call (l : result layer) (inputs : list tensor) : M tensor :=
  match l with
  | Raise e => raise e
  | Ok l =>
      match compute_output_shape l (tensor_shape <$> inputs) with
      | Some out => add_node l inputs out
      | None => raise (FrameworkError (layer_name l))
      end
  end.

(** [Input(shape=...)] *)
Definition Input (input_shape : shape) : M tensor :=
  if forallb (Z.ltb 0) input_shape
  then add_node (InputLayer input_shape) [] input_shape
  else raise (FrameworkError "Input").

(** [Model(inputs, outputs)]: the functional model between two tensors.
    Nodes are numbered in creation order, so the model's nodes are those
    from the input node up to the node of the output. *)
Record model := { inputs : tensor; outputs : tensor; layers : list node }.

Definition Model (i o : tensor) : M model :=
  fun s =>
    (Ok {| inputs := i; outputs := o;
           layers := drop (node_index i) (take (S (node_index o)) (graph s)) |},
     s).

End Keras.

(** ** Built-in operations of the language *)
Module Python.

(** [d[k]] on a dictionary of keyword arguments. *)
Definition getitem (d : gmap string value) (k : string) : M value :=
  match d !! k with
  | Some v => ret v
  | None => raise (KeyError k)
  end.

(** [l[0]] on a list. *)
Definition first {A} (l : list A) : M A :=
  match l with
  | a :: _ => ret a
  | [] => raise IndexError
  end.

(** [groups.pop()]: removes the last element of the list object in place
    and returns it. *)
Definition pop (groups : value) : M (list block) :=
  match groups with
  | VList l =>
      fun s =>
        match heap s !! l with
        | Some gs =>
            match last gs with
            | Some g => (Ok g, State (<[l := removelast gs]> (heap s)) (graph s))
            | None => (Raise IndexError, s)
            end
        | None => (Raise IllTyped, s)
        end
  | _ => raise IllTyped
  end.

(** [for group in groups]: the elements of the list object. *)
Definition elements (groups : value) : M (list (list block)) :=
  match groups with
  | VList l =>
      fun s =>
        match heap s !! l with
        | Some gs => (Ok gs, s)
        | None => (Raise IllTyped, s)
        end
  | _ => raise IllTyped
  end.

(** [for block in blocks]: the elements of a group. *)
Definition blocks_of (blocks : value) : M (list block) :=
  match blocks with
  | VBlocks bs => ret bs
  | _ => raise IllTyped
  end.

(** [v * k] on numbers. *)
Definition mul (v : value) (k : Z) : M value :=
  match v with
  | VInt z => ret (VInt (z * k))
  | VFloat q => ret (VFloat (q * inject_Z k))
  | _ => raise IllTyped
  end.

(** [**block]: the entries of a configuration dictionary as keyword
    arguments. *)
Definition unpack (b : block) : gmap string value := VInt <$> b.

(** [f(..., **d1, **d2)]: a keyword given twice is a [TypeError]. *)
Definition merge (d1 d2 : gmap string value) : result (gmap string value) :=
  if bool_decide (dom d1 ∩ dom d2 = ∅) then Ok (d1 ∪ d2) else Raise TypeError.

Fixpoint merge_all (ds : list (gmap string value)) : result (gmap string value) :=
  match ds with
  | [] => Ok ∅
  | d :: ds' =>
      match merge_all ds' with
      | Ok d' => merge d d'
      | Raise e => Raise e
      end
  end.

(** A call [f(x, **d1, ..., **dn)] of a function declared as
    [def f(x, init_weights=None, **metaparameters)]: the keyword [x]
    collides with the positional argument, [init_weights] binds the named
    parameter, the other keywords are collected in [metaparameters]. *)
Definition call_kw {A} (f : tensor -> value -> gmap string value -> M A)
    (x : tensor) (ds : list (gmap string value)) : M A :=
  match merge_all ds with
  | Ok kw =>
      if bool_decide ("x" ∈ dom kw) then raise TypeError
      else f x (default VNone (kw !! "init_weights")) (delete "init_weights" kw)
  | Raise e => raise e
  end.

End Python.

(** ** The composability base *)
Module Composable.

(** Modelled from the spec: the class-level defaults of the base class
    [Composable] of [models_c.py], which is not among the sources.  The
    spec says of it that it standardizes initializers, regularizers and
    the activation policy across the model definitions; the three
    attributes hold these, with values that stay parameters here. *)
Record attributes := { init_weights : value; reg : value; relu : value }.

(** The attributes of an object under construction: the hyperparameters
    the base records, and the layers the subclass saves. *)
Record instance := {
  self_init_weights : value;
  self_reg : value;
  self_relu : value;
  encoding : option tensor;
  probabilities : option tensor;
  softmax : option tensor;
  _model : option Keras.model
}.

(** Modelled from the spec: [Composable.__init__(init_weights, reg, relu)]
    records the initializer, the regularizer and the ReLU clamp of the
    model on the object. *)
Definition __init__ (init_weights reg relu : value) : instance :=
  {| self_init_weights := init_weights; self_reg := reg; self_relu := relu;
     encoding := None; probabilities := None; softmax := None;
     _model := None |}.

(** Modelled from the spec: the static method [Composable.ReLU(x)] applies
    the activation policy of the base, a ReLU layer with the class-level
    clamp, to [x]. *)
Definition ReLU (base : attributes) (x : tensor) : M tensor :=
  Keras.call (Keras.ReLU (relu base)) [x].

End Composable.

(** ** The class [SqueezeNet] *)
Module SqueezeNet.
Import Keras Python.

(** The list object bound to the class attribute [groups]. *)
Definition groups_ref : loc := 1%positive.

(** Meta-parameter: number of blocks and filters per group. *)
Definition groups : value := VList groups_ref.

Definition groups_table : list (list block) :=
  [ [ {[ "n_filters" := 16 ]}; {[ "n_filters" := 16 ]}; {[ "n_filters" := 32 ]} ];
    [ {[ "n_filters" := 32 ]}; {[ "n_filters" := 48 ]}; {[ "n_filters" := 48 ]};
      {[ "n_filters" := 64 ]} ];
    [ {[ "n_filters" := 64 ]} ] ].

(** The store once the class statement has run. *)
Definition loaded : state := State {[ groups_ref := groups_table ]} [].

(** Meta-parameter: dropout rate. *)
Definition dropout : value := VFloat (1 # 2).

Definition init_weights : value := VStr "glorot_uniform".

Section Methods.

(** The class attributes of the base class. *)
Variable base : Composable.attributes.

(** [SqueezeNet.reg]: the class does not bind [reg] itself, the lookup
    continues in the base class. *)
Definition reg : value := Composable.reg base.

(** Construct the Stem Group. *)
Definition stem (self : Composable.instance) (inputs : tensor)
    (metaparameters : gmap string value) : M tensor :=
  reg <- getitem metaparameters "reg" ;;
  x <- call (Conv2D (VInt 96) (Pair 7 7) (Int 2) "same" None
               (Composable.self_init_weights self) reg) [inputs] ;;
  x <- Composable.ReLU base x ;;
  call (MaxPooling2D (Int 3) (Int 2)) [x].

(** Construct a Fire Block. *)
Definition fire_block (x : tensor) (init_weights : value)
    (metaparameters : gmap string value) : M tensor :=
  n_filters <- getitem metaparameters "n_filters" ;;
  let reg := match metaparameters !! "reg" with
             | Some r => r
             | None => reg
             end in
  let init_weights := match init_weights with
                      | VNone => SqueezeNet.init_weights
                      | w => w
                      end in
  squeeze <- call (Conv2D n_filters (Pair 1 1) (Int 1) "same" (Some "relu")
                     init_weights reg) [x] ;;
  n <- mul n_filters 4 ;;
  expand1x1 <- call (Conv2D n (Pair 1 1) (Int 1) "same" None
                       init_weights reg) [squeeze] ;;
  expand1x1 <- Composable.ReLU base expand1x1 ;;
  n <- mul n_filters 4 ;;
  expand3x3 <- call (Conv2D n (Pair 3 3) (Int 1) "same" None
                       init_weights reg) [squeeze] ;;
  expand3x3 <- Composable.ReLU base expand3x3 ;;
  call Concatenate [expand1x1; expand3x3].

(** Construct a Fire Group. *)
Definition group (x : tensor) (init_weights : value)
    (metaparameters : gmap string value) : M tensor :=
  blocks <- getitem metaparameters "blocks" ;;
  let init_weights := match init_weights with
                      | VNone => SqueezeNet.init_weights
                      | w => w
                      end in
  blocks <- blocks_of blocks ;;
  x <- for_each blocks
         (fun x block =>
            call_kw fire_block x
              [ {[ "init_weights" := init_weights ]}; unpack block;
                metaparameters ])
         x ;;
  call (MaxPooling2D (Pair 3 3) (Pair 2 2)) [x].

(** Construct the Learner. *)
Definition learner (self : Composable.instance) (x : tensor)
    (metaparameters : gmap string value) : M tensor :=
  groups <- getitem metaparameters "groups" ;;
  let dropout := match metaparameters !! "dropout" with
                 | Some d => d
                 | None => SqueezeNet.dropout
                 end in
  last <- pop groups ;;
  groups <- elements groups ;;
  x <- for_each groups
         (fun x g =>
            call_kw group x [ {[ "blocks" := VBlocks g ]}; metaparameters ])
         x ;;
  block <- first last ;;
  x <- call_kw fire_block x [ unpack block; metaparameters ] ;;
  call (Dropout dropout) [x].

(** Construct the Classifier.  The saved layers are returned with the
    output; they are not observable when an exception ends the method. *)
Definition classifier (self : Composable.instance) (x : tensor)
    (n_classes : value) (metaparameters : gmap string value)
    : M (tensor * Composable.instance) :=
  reg <- getitem metaparameters "reg" ;;
  let encoding := x in
  x <- call (Conv2D n_classes (Pair 1 1) (Int 1) "same" None
               (Composable.self_init_weights self) reg) [x] ;;
  x <- Composable.ReLU base x ;;
  x <- call GlobalAveragePooling2D [x] ;;
  let probabilities := x in
  outputs <- call (Activation "softmax") [x] ;;
  ret (outputs,
       {| Composable.self_init_weights := Composable.self_init_weights self;
          Composable.self_reg := Composable.self_reg self;
          Composable.self_relu := Composable.self_relu self;
          Composable.encoding := Some encoding;
          Composable.probabilities := Some probabilities;
          Composable.softmax := Some outputs;
          Composable._model := Composable._model self |}).

Definition of_reg (r : option regularizer) : value :=
  match r with
  | Some r => VReg r
  | None => VNone
  end.

Definition of_relu (c : option Q) : value :=
  match c with
  | Some q => VFloat q
  | None => VNone
  end.

(** Construct a SqueezeNet Convolutional Neural Network. *)
Definition __init__ (groups : option loc) (dropout : Q) (input_shape : shape)
    (n_classes : Z) (init_weights : string) (reg : option regularizer)
    (relu : option Q) : M Composable.instance :=
  let self := Composable.__init__ (VStr init_weights) (of_reg reg)
                (of_relu relu) in
  let groups := match groups with
                | None => SqueezeNet.groups
                | Some l => VList l
                end in
  inputs <- Input input_shape ;;
  x <- stem self inputs {[ "reg" := of_reg reg ]} ;;
  x <- learner self x
         (<[ "groups" := groups ]>
            (<[ "dropout" := VFloat dropout ]> {[ "reg" := of_reg reg ]})) ;;
  r <- classifier self x (VInt n_classes) {[ "reg" := of_reg reg ]} ;;
  m <- Model inputs r.1 ;;
  ret {| Composable.self_init_weights := Composable.self_init_weights r.2;
         Composable.self_reg := Composable.self_reg r.2;
         Composable.self_relu := Composable.self_relu r.2;
         Composable.encoding := Composable.encoding r.2;
         Composable.probabilities := Composable.probabilities r.2;
         Composable.softmax := Composable.softmax r.2;
         Composable._model := Some m |}.

(** The keyword arguments of a call [SqueezeNet(...)]; an omitted one is
    [None] here and takes the default of the signature of [__init__]. *)
Record arguments := {
  arg_groups : option (option loc);
  arg_dropout : option Q;
  arg_input_shape : option shape;
  arg_n_classes : option Z;
  arg_init_weights : option string;
  arg_reg : option (option regularizer);
  arg_relu : option (option Q)
}.

Definition no_arguments : arguments :=
  {| arg_groups := None; arg_dropout := None; arg_input_shape := None;
     arg_n_classes := None; arg_init_weights := None; arg_reg := None;
     arg_relu := None |}.

(** [SqueezeNet(...)]: the signature
    [(groups=None, dropout=0.5, input_shape=(224, 224, 3), n_classes=1000,
      init_weights='glorot_uniform', reg=l2(0.001), relu=None)]. *)
Definition new (a : arguments) : M Composable.instance :=
  __init__ (default None (arg_groups a))
           (default (1 # 2)%Q (arg_dropout a))
           (default [224; 224; 3] (arg_input_shape a))
           (default 1000 (arg_n_classes a))
           (default "glorot_uniform" (arg_init_weights a))
           (default (Some (l2 (1 # 1000))) (arg_reg a))
           (default None (arg_relu a)).

End Methods.

End SqueezeNet.

(** ** What a fire block adds to the graph *)

(** The six nodes of a fire block built on the tensor of node [x] with
    spatial size [h] by [w], when the graph has [k] nodes before: the
    squeeze convolution, the two expand branches on the squeeze output, each
    with its ReLU, and the concatenation of the branches. *)
Definition fire_nodes (k x : nat) (h w n : Z) (i : option string)
    (r : option regularizer) (c : option Q) : list node :=
  [ Node (LConv2D n (1, 1) (1, 1) same (Some "relu") i r) [x] [h; w; n];
    Node (LConv2D (n * 4) (1, 1) (1, 1) same None i r) [k] [h; w; n * 4];
    Node (LReLU c) [S k] [h; w; n * 4];
    Node (LConv2D (n * 4) (3, 3) (1, 1) same None i r) [k] [h; w; n * 4];
    Node (LReLU c) [S (S (S k))] [h; w; n * 4];
    Node LConcatenate [S (S k); S (S (S (S k)))] [h; w; n * 4 + n * 4] ].

(** ** The layers of a constructed model, read off the configuration *)

Definition fire_layers (n : Z) (i : option string) (r : option regularizer)
    (c : option Q) : list layer :=
  node_layer <$> fire_nodes 0 0 0 0 n i r c.

(** The filter count a block declares. *)
Definition n_filters (b : block) : Z := default 0 (b !! "n_filters").

Definition group_layers (i : option string) (r : option regularizer)
    (c : option Q) (blocks : list block) : list layer :=
  flat_map (fun b => fire_layers (n_filters b) i r c) blocks
  ++ [LMaxPooling2D (3, 3) (2, 2)].

Definition stem_layers (i : option string) (r : option regularizer)
    (c : option Q) : list layer :=
  [ LConv2D 96 (7, 7) (2, 2) same None i r; LReLU c;
    LMaxPooling2D (3, 3) (2, 2) ].

(** The learner applied to the groups [gs] followed by a last group whose
    first block is [b]. *)
Definition learner_layers (i : option string) (r : option regularizer)
    (c : option Q) (gs : list (list block)) (b : block) (rate : Q) : list layer :=
  flat_map (group_layers i r c) gs
  ++ fire_layers (n_filters b) i r c ++ [LDropout rate].

Definition classifier_layers (n_classes : Z) (i : option string)
    (r : option regularizer) (c : option Q) : list layer :=
  [ LConv2D n_classes (1, 1) (1, 1) same None i r; LReLU c;
    LGlobalAveragePooling2D; LActivation "softmax" ].

Definition model_layers (input_shape : shape) (gs : list (list block))
    (b : block) (rate : Q) (n_classes : Z) (init_weights : string)
    (r : option regularizer) (c : option Q) : list layer :=
  InputLayer input_shape
  :: stem_layers (Some init_weights) r c
  ++ learner_layers (Some "glorot_uniform") r c gs b rate
  ++ classifier_layers n_classes (Some init_weights) r c.

(** ** Measures on a graph *)

Definition is_concatenate (l : layer) : bool :=
  match l with LConcatenate => true | _ => false end.

Definition is_max_pooling (l : layer) : bool :=
  match l with LMaxPooling2D _ _ => true | _ => false end.

(** A fire block ends in the one concatenation it contains. *)
Definition fire_blocks (ls : list layer) : nat :=
  length (filter (fun l => is_concatenate l = true) ls).

(** The stem ends in a max pooling and so does every fire group. *)
Definition fire_groups (ls : list layer) : nat :=
  Nat.pred (length (filter (fun l => is_max_pooling l = true) ls)).

(** The filter counts of the squeeze convolutions (the convolutions with a
    built-in ReLU activation), in creation order. *)
Definition squeeze_filters (ls : list layer) : list Z :=
  omap (fun l => match l with
                 | LConv2D n _ _ _ (Some "relu") _ _ => Some n
                 | _ => None
                 end) ls.

(** The catalog of building blocks: convolution, pooling, concatenation,
    dropout, activation (ReLU and softmax), and the input placeholder. *)
Definition in_catalog (l : layer) : bool :=
  match l with
  | InputLayer _ => true
  | LConv2D _ _ _ _ a _ _ =>
      bool_decide (a = None) || bool_decide (a = Some "relu")
  | LReLU _ => true
  | LMaxPooling2D _ _ => true
  | LConcatenate => true
  | LDropout _ => true
  | LGlobalAveragePooling2D => true
  | LActivation a => bool_decide (a = "softmax")
  end.

(** ** Growth of the graph *)

(** From [s] to [s'] the graph has gained nodes with the layers [ls], in
    this order, and lost none. *)
Definition adds (s s' : state) (ls : list layer) : Prop :=
  exists ns, graph s' = graph s ++ ns /\ node_layer <$> ns = ls.

(** Every block of a group declares its filter count. *)
Definition declares_filters (bs : list block) : Prop :=
  Forall (fun b : block => is_Some (b !! "n_filters")) bs.

(** ** Concrete configurations *)
Module Examples.

(** A base class without ReLU clamp and without regularizer. *)
Definition base : Composable.attributes :=
  {| Composable.init_weights := VStr "he_normal";
     Composable.reg := VNone;
     Composable.relu := VNone |}.

(** A caller's table whose last group has two blocks. *)
Definition two_groups : list (list block) :=
  [ [ {[ "n_filters" := 16 ]} ];
    [ {[ "n_filters" := 32 ]}; {[ "n_filters" := 48 ]} ] ].

Definition caller_ref : loc := 2%positive.

(** The store with the class attribute and a list of the caller. *)
Definition with_table (gs : list (list block)) : state :=
  State (<[ caller_ref := gs ]> (heap SqueezeNet.loaded)) [].

(** The output of a stem on a 224 x 224 image, as an input tensor. *)
Definition after_input : state := (Keras.Input [55; 55; 96] SqueezeNet.loaded).2.

Definition x : tensor := Tensor 0 [55; 55; 96].

(** A call that passes all seven parameters:
    [SqueezeNet(groups=table, dropout=0.25, input_shape=(64, 64, 3),
                n_classes=10, init_weights='he_normal', reg=None, relu=6.0)]
    with [table] the caller's list. *)
Definition all_arguments : SqueezeNet.arguments :=
  {| SqueezeNet.arg_groups := Some (Some caller_ref);
     SqueezeNet.arg_dropout := Some (1 # 4)%Q;
     SqueezeNet.arg_input_shape := Some [64; 64; 3];
     SqueezeNet.arg_n_classes := Some 10;
     SqueezeNet.arg_init_weights := Some "he_normal";
     SqueezeNet.arg_reg := Some None;
     SqueezeNet.arg_relu := Some (Some (6 # 1)%Q) |}.

End Examples.

(** ** Frame conditions and outcomes *)

(** A computation that leaves the store as it is, whether it returns or
    raises. *)
Definition keeps_heap {A} (m : M A) : Prop := forall s, heap (m s).2 = heap s.

(** The exceptions a construction can end in: an error of the framework,
    or one of the built-in operations on the table failing ([pop] or
    [last[0]] on an empty list, a block without ['n_filters'], a block
    with a key that is also passed as a keyword). *)
Definition from_framework_or_builtin (e : exn) : Prop :=
  match e with
  | FrameworkError _ => True
  | IndexError => True
  | KeyError k => k = "n_filters"
  | TypeError => True
  | IllTyped => False
  end.

(** A computation that raises nothing else. *)
Definition raises_only {A} (P : exn -> Prop) (m : M A) : Prop :=
  forall s e s', m s = (Raise e, s') -> P e.


(** ** Further measures and invariants *)

(** A computation that only appends to the graph, whether it returns or
    raises: the nodes present before are still there, unchanged and at the
    same indices. *)
Definition grows_only {A} (m : M A) : Prop :=
  forall s, graph s `prefix_of` graph (m s).2.

(** Size of a spatial axis after a 3x3 max pooling with stride 2. *)
Definition pooled (n : Z) : Z := (n - 3) / 2 + 1.

(** The initializers and the regularizers of the convolutions of a model,
    in creation order. *)
Definition conv_initializers (ls : list layer) : list (option string) :=
  omap (fun l => match l with
                 | LConv2D _ _ _ _ _ i _ => Some i
                 | _ => None
                 end) ls.

Definition conv_regularizers (ls : list layer) : list (option regularizer) :=
  omap (fun l => match l with
                 | LConv2D _ _ _ _ _ _ r => Some r
                 | _ => None
                 end) ls.

(** ** Wiring of the graph *)

(** From index [n] on, every node takes its inputs from nodes that were
    created before it and not before [n]. *)
Definition wired_from (n : nat) (g : list node) : Prop :=
  forall i nd, g !! i = Some nd -> (n <= i)%nat ->
    Forall (fun j => (n <= j < i)%nat) (inbound nd).

(** The graph of [s] is wired from [n] on, and the tensors [ts] are
    outputs of its nodes from [n] on. *)
Definition wired (n : nat) (ts : list tensor) (s : state) : Prop :=
  (n <= length (graph s))%nat /\
  wired_from n (graph s) /\
  Forall (fun t => (n <= node_index t < length (graph s))%nat) ts.

(** A partial-correctness triple: when [m] starts in a state with [P] and
    returns [a], it leaves a state with [Q a]. *)
Definition builds {A} (P : state -> Prop) (m : M A) (Q : A -> state -> Prop)
    : Prop :=
  forall s a s', P s -> m s = (Ok a, s') -> Q a s'.

(** The number of channels after the fire blocks of [bs] on a tensor with
    [c] channels: every fire block puts out eight times its filter count. *)
Definition fire_channels (c : Z) (bs : list block) : Z :=
  foldl (fun _ b => n_filters b * 4 + n_filters b * 4) c bs.


(** The input placeholders among the layers of a model. *)
Definition is_input_layer (l : layer) : bool :=
  match l with InputLayer _ => true | _ => false end.

Definition input_layers (ls : list layer) : nat :=
  length (filter (fun l => is_input_layer l = true) ls).
(** ** Reasoning about computations *)

Lemma bind_Ok {A B} (m : M A) (k : A -> M B) s b s' :
  bind m k s = (Ok b, s') <->
  exists a s1, m s = (Ok a, s1) /\ k a s1 = (Ok b, s').
Proof.
  unfold bind. split.
  - destruct (m s) as [[a|e] s1]; [eauto | discriminate].
  - intros (a & s1 & -> & H). exact H.
Qed.

Lemma bind_Raise {A B} (m : M A) (k : A -> M B) s e s' :
  bind m k s = (Raise e, s') <->
  m s = (Raise e, s') \/ exists a s1, m s = (Ok a, s1) /\ k a s1 = (Raise e, s').
Proof.
  unfold bind. split.
  - destruct (m s) as [[a|e0] s1]; [eauto | left; congruence].
  - intros [-> | (a & s1 & -> & H)]; [reflexivity | exact H].
Qed.

Lemma ret_Ok {A} (a b : A) s s' : ret a s = (Ok b, s') <-> a = b /\ s = s'.
Proof. unfold ret. split; [intros [= -> ->] | intros [-> ->]]; done. Qed.

Lemma getitem_Ok d k v s s' :
  Python.getitem d k s = (Ok v, s') <-> d !! k = Some v /\ s = s'.
Proof.
  unfold Python.getitem. destruct (d !! k); unfold ret, raise; split.
  - intros [= -> ->]; done.
  - intros [[= ->] ->]; done.
  - discriminate.
  - intros [[=] _].
Qed.

Lemma call_Ok rl ins t s s' :
  Keras.call rl ins s = (Ok t, s') ->
  exists l, rl = Ok l /\
    Keras.compute_output_shape l (tensor_shape <$> ins) = Some (tensor_shape t) /\
    node_index t = length (graph s) /\
    s' = State (heap s) (graph s ++ [Node l (node_index <$> ins) (tensor_shape t)]).
Proof.
  unfold Keras.call. destruct rl as [l|e]; [|discriminate].
  destruct (Keras.compute_output_shape l _) as [out|] eqn:E; [|discriminate].
  unfold Keras.add_node. intros [= <- <-]. exists l. simpl. done.
Qed.

Lemma Conv2D_Ok v ks st pad act iw rg l :
  Keras.Conv2D v ks st pad act iw rg = Ok l ->
  exists n p a i r,
    v = VInt n /\ 0 < n /\ Keras.get_padding pad = Some p /\
    Keras.get_activation act = Some a /\ Keras.get_initializer iw = Some i /\
    Keras.get_regularizer rg = Some r /\
    l = LConv2D n (Keras.normalize_tuple ks) (Keras.normalize_tuple st) p a i r.
Proof.
  unfold Keras.Conv2D. destruct v; try discriminate.
  destruct (Keras.get_padding pad) as [p|]; [|discriminate].
  destruct (Keras.get_activation act) as [a|]; [|discriminate].
  destruct (Keras.get_initializer iw) as [i|]; [|discriminate].
  destruct (Keras.get_regularizer rg) as [r|]; [|discriminate].
  destruct (0 <? z) eqn:Hz; simpl; [|discriminate].
  destruct (_ && _); [|discriminate].
  intros [= <-]. exists z, p, a, i, r. repeat split; try done. lia.
Qed.

Lemma ReLU_Ok v l : Keras.ReLU v = Ok l -> exists c, l = LReLU c.
Proof.
  unfold Keras.ReLU. destruct v; try discriminate.
  - intros [= <-]. eauto.
  - destruct (0 <=? z); [intros [= <-]; eauto | discriminate].
  - destruct (Qle_bool 0 q); [intros [= <-]; eauto | discriminate].
Qed.

Lemma Composable_ReLU_Ok base x t s s' :
  Composable.ReLU base x s = (Ok t, s') ->
  exists c, Keras.ReLU (Composable.relu base) = Ok (LReLU c) /\
    t = Tensor (length (graph s)) (tensor_shape x) /\
    s' = State (heap s) (graph s ++ [Node (LReLU c) [node_index x] (tensor_shape x)]).
Proof.
  unfold Composable.ReLU. intros H. apply call_Ok in H as (l & Hl & Hsh & Hi & ->).
  destruct (ReLU_Ok _ _ Hl) as [c ->]. exists c. split; [done|].
  simpl in Hsh. injection Hsh as Hsh. destruct t as [ti ts]. simpl in *. subst.
  done.
Qed.

(** Stepping through a computation that returns: every [bind] is split
    into its two halves. *)
Tactic Notation "step" hyp(H) :=
  let a := fresh "a" in
  let s1 := fresh "s" in
  let H1 := fresh "H" in
  apply bind_Ok in H as (a & s1 & H1 & H).

Tactic Notation "step" hyp(H) "as" ident(a) ident(s) ident(Ha) :=
  apply bind_Ok in H as (a & s & Ha & H).

Lemma same_stride_1 n : (n + 1 - 1) / 1 = n.
Proof. rewrite Z.div_1_r. lia. Qed.

(** A convolution with padding ['same'] applied to one tensor. *)
Lemma conv_call_Ok v ks st act iw rg x t s s' :
  Keras.call (Keras.Conv2D v ks st "same" act iw rg) [x] s = (Ok t, s') ->
  exists n h w ch a i r,
    v = VInt n /\ 0 < n /\ tensor_shape x = [h; w; ch] /\
    Keras.get_activation act = Some a /\ Keras.get_initializer iw = Some i /\
    Keras.get_regularizer rg = Some r /\
    let out := [(h + (Keras.normalize_tuple st).1 - 1) / (Keras.normalize_tuple st).1;
                (w + (Keras.normalize_tuple st).2 - 1) / (Keras.normalize_tuple st).2;
                n] in
    t = Tensor (length (graph s)) out /\
    s' = State (heap s)
           (graph s ++
            [Node (LConv2D n (Keras.normalize_tuple ks) (Keras.normalize_tuple st)
                     same a i r) [node_index x] out]).
Proof.
  intros H. apply call_Ok in H as (l & Hl & Hsh & Hi & ->).
  apply Conv2D_Ok in Hl as (n & p & a & i & r & -> & Hpos & [= <-] & Ha & Hi' & Hr & ->).
  simpl in Hsh. destruct (Keras.normalize_tuple ks) as [kh kw].
  destruct (Keras.normalize_tuple st) as [sh sw]. simpl in *.
  destruct (tensor_shape x) as [|h [|w [|ch [|? ?]]]]; try discriminate.
  injection Hsh as Hsh. destruct t as [ti ts]. simpl in *. subst.
  exists n, h, w, ch, a, i, r. done.
Qed.

Lemma known_relu a : Keras.get_activation (Some "relu") = Some a -> a = Some "relu".
Proof. vm_compute. congruence. Qed.

(** Growth of the graph. *)

Lemma adds_refl s : adds s s [].
Proof. exists []. by rewrite app_nil_r. Qed.

Lemma adds_trans s1 s2 s3 l1 l2 :
  adds s1 s2 l1 -> adds s2 s3 l2 -> adds s1 s3 (l1 ++ l2).
Proof.
  intros (n1 & H1 & <-) (n2 & H2 & <-). exists (n1 ++ n2).
  rewrite H2, H1, fmap_app, app_assoc. done.
Qed.

Lemma adds_nodes s s' ns :
  graph s' = graph s ++ ns -> adds s s' (node_layer <$> ns).
Proof. intros H. exists ns. done. Qed.

Lemma adds_length s s' ls :
  adds s s' ls -> length (graph s') = (length (graph s) + length ls)%nat.
Proof. intros (ns & -> & <-). by rewrite length_app, length_fmap. Qed.

Lemma call_adds l ins t s s' :
  Keras.call (Ok l) ins s = (Ok t, s') ->
  heap s' = heap s /\ adds s s' [l] /\ node_index t = length (graph s).
Proof.
  intros H. apply call_Ok in H as (l' & [= <-] & _ & Hi & ->). simpl.
  split; [done|]. split; [|done]. eexists. simpl. done.
Qed.

Lemma pool_call_Ok p st x t s s' :
  Keras.normalize_tuple p = (3, 3) ->
  Keras.normalize_tuple st = (2, 2) ->
  Keras.call (Keras.MaxPooling2D p st) [x] s = (Ok t, s') ->
  exists h w c,
    tensor_shape x = [h; w; c] /\ 3 <= h /\ 3 <= w /\
    t = Tensor (length (graph s)) [(h - 3) / 2 + 1; (w - 3) / 2 + 1; c] /\
    s' = State (heap s)
           (graph s ++
            [Node (LMaxPooling2D (3, 3) (2, 2)) [node_index x]
               [(h - 3) / 2 + 1; (w - 3) / 2 + 1; c]]).
Proof.
  intros Hp Hst H. unfold Keras.MaxPooling2D in H. rewrite Hp, Hst in H.
  change (Keras.call (Ok (LMaxPooling2D (3, 3) (2, 2))) [x] s = (Ok t, s')) in H.
  apply call_Ok in H as (l & [= <-] & Hsh & Hi & ->).
  simpl in Hsh. destruct (tensor_shape x) as [|h [|w [|c [|? ?]]]]; try discriminate.
  destruct (3 <=? h) eqn:Hh; [|discriminate].
  destruct (3 <=? w) eqn:Hw; [|discriminate].
  injection Hsh as Hsh. destruct t as [ti ts]. simpl in *. subst.
  exists h, w, c. repeat split; try done; lia.
Qed.

(** Built-in operations on the list of groups. *)

Lemma pop_Ok v g s s' :
  Python.pop v s = (Ok g, s') ->
  exists l init,
    v = VList l /\ heap s !! l = Some (init ++ [g]) /\
    s' = State (<[l := init]> (heap s)) (graph s).
Proof.
  unfold Python.pop. destruct v; try discriminate.
  destruct (heap s !! l) as [gs|] eqn:Hl; [|discriminate].
  destruct (last gs) as [g'|] eqn:Hlast; [|discriminate].
  intros [= <- <-]. apply last_Some in Hlast as [init ->].
  exists l, init. by rewrite removelast_last.
Qed.

Lemma elements_Ok l gs s s' :
  Python.elements (VList l) s = (Ok gs, s') -> heap s !! l = Some gs /\ s' = s.
Proof.
  unfold Python.elements. destruct (heap s !! l); [|discriminate].
  by intros [= <- <-].
Qed.

Lemma first_Ok {A} (l : list A) a s s' :
  Python.first l s = (Ok a, s') -> exists rest, l = a :: rest /\ s' = s.
Proof.
  destruct l as [|a' rest]; [discriminate|]. unfold Python.first, ret.
  intros [= <- <-]. eauto.
Qed.

Lemma dropout_call_Ok d x t s s' :
  Keras.call (Keras.Dropout (VFloat d)) [x] s = (Ok t, s') ->
  heap s' = heap s /\ adds s s' [LDropout d] /\
  t = Tensor (length (graph s)) (tensor_shape x).
Proof.
  unfold Keras.Dropout. destruct (_ && _); [|discriminate].
  intros H. apply call_Ok in H as (l & [= <-] & Hsh & Hi & ->). simpl in *.
  split; [done|]. split; [eexists; simpl; done|].
  destruct t as [ti ts]. simpl in *. congruence.
Qed.

(** Computations that return: the forward direction. *)

Lemma bind_run {A B} (m : M A) (k : A -> M B) s a s1 :
  m s = (Ok a, s1) -> bind m k s = k a s1.
Proof. unfold bind. by intros ->. Qed.

Lemma getitem_run d k v s : d !! k = Some v -> Python.getitem d k s = (Ok v, s).
Proof. unfold Python.getitem. by intros ->. Qed.

Lemma call_run l ins out s :
  Keras.compute_output_shape l (tensor_shape <$> ins) = Some out ->
  Keras.call (Ok l) ins s
  = (Ok (Tensor (length (graph s)) out),
     State (heap s) (graph s ++ [Node l (node_index <$> ins) out])).
Proof. unfold Keras.call. by intros ->. Qed.

Lemma conv_call_run n ks st act a iw i rg r x h w ch s :
  0 < n ->
  Keras.positive_pair (Keras.normalize_tuple ks) = true ->
  Keras.positive_pair (Keras.normalize_tuple st) = true ->
  Keras.get_activation act = Some a ->
  Keras.get_initializer iw = Some i ->
  Keras.get_regularizer rg = Some r ->
  tensor_shape x = [h; w; ch] ->
  let out := [(h + (Keras.normalize_tuple st).1 - 1) / (Keras.normalize_tuple st).1;
              (w + (Keras.normalize_tuple st).2 - 1) / (Keras.normalize_tuple st).2;
              n] in
  Keras.call (Keras.Conv2D (VInt n) ks st "same" act iw rg) [x] s
  = (Ok (Tensor (length (graph s)) out),
     State (heap s)
       (graph s ++
        [Node (LConv2D n (Keras.normalize_tuple ks) (Keras.normalize_tuple st)
                 same a i r) [node_index x] out])).
Proof.
  intros Hn Hks Hst Ha Hi Hr Hx out. unfold Keras.Conv2D.
  change (Keras.get_padding "same") with (Some same).
  rewrite Ha, Hi, Hr, Hks, Hst. apply Z.ltb_lt in Hn as ->. simpl andb.
  apply call_run. simpl. rewrite Hx.
  destruct (Keras.normalize_tuple ks), (Keras.normalize_tuple st). done.
Qed.

Lemma Composable_ReLU_run base c x s :
  Keras.ReLU (Composable.relu base) = Ok (LReLU c) ->
  Composable.ReLU base x s
  = (Ok (Tensor (length (graph s)) (tensor_shape x)),
     State (heap s) (graph s ++ [Node (LReLU c) [node_index x] (tensor_shape x)])).
Proof. unfold Composable.ReLU. intros ->. by apply call_run. Qed.

Lemma pool_call_run p st x h w c s :
  Keras.normalize_tuple p = (3, 3) ->
  Keras.normalize_tuple st = (2, 2) ->
  tensor_shape x = [h; w; c] -> 3 <= h -> 3 <= w ->
  Keras.call (Keras.MaxPooling2D p st) [x] s
  = (Ok (Tensor (length (graph s)) [(h - 3) / 2 + 1; (w - 3) / 2 + 1; c]),
     State (heap s)
       (graph s ++
        [Node (LMaxPooling2D (3, 3) (2, 2)) [node_index x]
           [(h - 3) / 2 + 1; (w - 3) / 2 + 1; c]])).
Proof.
  intros Hp Hst Hx Hh Hw. unfold Keras.MaxPooling2D. rewrite Hp, Hst.
  change (Keras.positive_pair (3, 3) && Keras.positive_pair (2, 2)) with true.
  cbv iota. apply call_run. simpl. rewrite Hx.
  apply Z.leb_le in Hh as ->. apply Z.leb_le in Hw as ->. done.
Qed.

(** Keyword arguments. *)

Lemma merge_all_cons d ds kw :
  Python.merge_all (d :: ds) = Ok kw <->
  exists kw', Python.merge_all ds = Ok kw' /\ dom d ∩ dom kw' = ∅ /\ kw = d ∪ kw'.
Proof.
  simpl. destruct (Python.merge_all ds) as [kw'|e]; unfold Python.merge.
  - case_bool_decide as Hd; split.
    + intros [= <-]. eauto.
    + intros (? & [= <-] & _ & ->). done.
    + discriminate.
    + intros (? & [= <-] & Hd' & _). done.
  - split; [discriminate | intros (? & [=] & _)].
Qed.

Lemma merge_all_pair d1 d2 kw :
  Python.merge_all [d1; d2] = Ok kw <-> dom d1 ∩ dom d2 = ∅ /\ kw = d1 ∪ d2.
Proof.
  rewrite merge_all_cons. split.
  - intros (kw' & H & Hd & ->). apply merge_all_cons in H as (kw2 & Hnil & _ & ->).
    injection Hnil as <-. rewrite (right_id_L ∅ (∪)) in *. done.
  - intros [Hd ->]. exists d2. split; [|done].
    apply merge_all_cons. exists ∅. rewrite (right_id_L ∅ (∪)).
    split; [done|]. split; [|done].
    rewrite dom_empty_L. apply (right_absorb_L ∅ (∩)).
Qed.

Lemma disjoint_lookup (d1 d2 : gmap string value) k v :
  dom d1 ∩ dom d2 = ∅ -> d2 !! k = Some v -> d1 !! k = None.
Proof.
  intros Hd H2. apply not_elem_of_dom. intros H1.
  assert (k ∈ dom d2) by (apply elem_of_dom; eauto). set_solver.
Qed.

Lemma call_kw_Ok {A} (f : tensor -> value -> gmap string value -> M A) x ds a s s' :
  Python.call_kw f x ds s = (Ok a, s') ->
  exists kw, Python.merge_all ds = Ok kw /\ kw !! "x" = None /\
    f x (default VNone (kw !! "init_weights")) (delete "init_weights" kw) s = (Ok a, s').
Proof.
  unfold Python.call_kw. destruct (Python.merge_all ds) as [kw|e]; [|discriminate].
  case_bool_decide as Hx; [discriminate|]. intros H. exists kw.
  split; [done|]. split; [|done]. by apply not_elem_of_dom.
Qed.

Lemma unpack_lookup (b : block) k : Python.unpack b !! k = VInt <$> b !! k.
Proof. unfold Python.unpack. apply lookup_fmap. Qed.

(** Measures on the layers of a model. *)

Lemma squeeze_filters_app l1 l2 :
  squeeze_filters (l1 ++ l2) = squeeze_filters l1 ++ squeeze_filters l2.
Proof. unfold squeeze_filters. apply omap_app. Qed.

Lemma squeeze_filters_fires i r c bs :
  squeeze_filters (flat_map (fun b => fire_layers (n_filters b) i r c) bs)
  = n_filters <$> bs.
Proof.
  induction bs as [|b bs IH]; [done|]. cbn [flat_map].
  rewrite squeeze_filters_app, IH. done.
Qed.

Lemma squeeze_filters_groups i r c gs :
  squeeze_filters (flat_map (group_layers i r c) gs) = n_filters <$> concat gs.
Proof.
  induction gs as [|g gs IH]; [done|]. cbn [flat_map concat].
  unfold group_layers at 1.
  rewrite !squeeze_filters_app, squeeze_filters_fires, IH, fmap_app.
  by rewrite app_nil_r.
Qed.

Lemma squeeze_filters_model input_shape gs b rate n iw r c :
  squeeze_filters (model_layers input_shape gs b rate n iw r c)
  = (n_filters <$> concat gs) ++ [n_filters b].
Proof.
  unfold model_layers, learner_layers.
  change (InputLayer input_shape :: ?l) with ([InputLayer input_shape] ++ l).
  rewrite !squeeze_filters_app, squeeze_filters_groups.
  change (squeeze_filters [InputLayer input_shape]) with (@nil Z).
  change (squeeze_filters (stem_layers (Some iw) r c)) with (@nil Z).
  change (squeeze_filters (classifier_layers n (Some iw) r c)) with (@nil Z).
  change (squeeze_filters [LDropout rate]) with (@nil Z).
  change (squeeze_filters (fire_layers (n_filters b) (Some "glorot_uniform") r c))
    with [n_filters b].
  by rewrite !app_nil_r.
Qed.

Lemma fire_blocks_app l1 l2 :
  fire_blocks (l1 ++ l2) = (fire_blocks l1 + fire_blocks l2)%nat.
Proof. unfold fire_blocks. by rewrite filter_app, length_app. Qed.

Lemma fire_blocks_fires i r c bs :
  fire_blocks (flat_map (fun b => fire_layers (n_filters b) i r c) bs)
  = length bs.
Proof.
  induction bs as [|b bs IH]; [done|]. cbn [flat_map].
  rewrite fire_blocks_app, IH. done.
Qed.

Lemma fire_blocks_groups i r c gs :
  fire_blocks (flat_map (group_layers i r c) gs) = length (concat gs).
Proof.
  induction gs as [|g gs IH]; [done|]. cbn [flat_map concat].
  unfold group_layers at 1.
  rewrite !fire_blocks_app, fire_blocks_fires, IH, length_app.
  change (fire_blocks [LMaxPooling2D (3, 3) (2, 2)]) with 0%nat. lia.
Qed.

Lemma fire_blocks_model input_shape gs b rate n iw r c :
  fire_blocks (model_layers input_shape gs b rate n iw r c)
  = (length (concat gs) + 1)%nat.
Proof.
  unfold model_layers, learner_layers.
  change (InputLayer input_shape :: ?l) with ([InputLayer input_shape] ++ l).
  rewrite !fire_blocks_app, fire_blocks_groups. done.
Qed.

Lemma max_poolings_app l1 l2 :
  length (filter (fun l => is_max_pooling l = true) (l1 ++ l2))
  = (length (filter (fun l => is_max_pooling l = true) l1)
     + length (filter (fun l => is_max_pooling l = true) l2))%nat.
Proof. by rewrite filter_app, length_app. Qed.

Lemma max_poolings_fires i r c bs :
  length (filter (fun l => is_max_pooling l = true)
            (flat_map (fun b => fire_layers (n_filters b) i r c) bs)) = 0%nat.
Proof.
  induction bs as [|b bs IH]; [done|]. cbn [flat_map].
  rewrite max_poolings_app, IH. done.
Qed.

Lemma max_poolings_groups i r c gs :
  length (filter (fun l => is_max_pooling l = true)
            (flat_map (group_layers i r c) gs)) = length gs.
Proof.
  induction gs as [|g gs IH]; [done|]. cbn [flat_map].
  unfold group_layers at 1.
  rewrite !max_poolings_app, max_poolings_fires, IH. done.
Qed.

Lemma fire_groups_model input_shape gs b rate n iw r c :
  fire_groups (model_layers input_shape gs b rate n iw r c) = length gs.
Proof.
  unfold fire_groups, model_layers, learner_layers.
  change (InputLayer input_shape :: ?l) with ([InputLayer input_shape] ++ l).
  rewrite !max_poolings_app, max_poolings_groups. simpl. lia.
Qed.

Lemma in_catalog_app l1 l2 :
  forallb in_catalog (l1 ++ l2) = forallb in_catalog l1 && forallb in_catalog l2.
Proof. apply forallb_app. Qed.

Lemma in_catalog_fires i r c bs :
  forallb in_catalog (flat_map (fun b => fire_layers (n_filters b) i r c) bs) = true.
Proof.
  induction bs as [|b bs IH]; [done|]. cbn [flat_map].
  rewrite in_catalog_app, IH. done.
Qed.

Lemma in_catalog_groups i r c gs :
  forallb in_catalog (flat_map (group_layers i r c) gs) = true.
Proof.
  induction gs as [|g gs IH]; [done|]. cbn [flat_map].
  unfold group_layers at 1.
  rewrite !in_catalog_app, in_catalog_fires, IH. done.
Qed.

Lemma in_catalog_model input_shape gs b rate n iw r c :
  forallb in_catalog (model_layers input_shape gs b rate n iw r c) = true.
Proof.
  unfold model_layers, learner_layers.
  change (InputLayer input_shape :: ?l) with ([InputLayer input_shape] ++ l).
  rewrite !in_catalog_app, in_catalog_groups. done.
Qed.

(** Frame: what leaves the store alone. *)

Lemma keeps_heap_ret {A} (a : A) : keeps_heap (ret a).
Proof. done. Qed.

Lemma keeps_heap_raise {A} e : keeps_heap (@raise A e).
Proof. done. Qed.

Lemma keeps_heap_bind {A B} (m : M A) (k : A -> M B) :
  keeps_heap m -> (forall a, keeps_heap (k a)) -> keeps_heap (bind m k).
Proof.
  intros Hm Hk s. unfold bind. specialize (Hm s).
  destruct (m s) as [[a|e] s1]; simpl in *; [|done].
  rewrite <- Hm. apply Hk.
Qed.

Lemma keeps_heap_getitem d k : keeps_heap (Python.getitem d k).
Proof. intros s. unfold Python.getitem. by destruct (d !! k). Qed.

Lemma keeps_heap_first {A} (l : list A) : keeps_heap (Python.first l).
Proof. intros s. by destruct l. Qed.

Lemma keeps_heap_blocks_of v : keeps_heap (Python.blocks_of v).
Proof. intros s. by destruct v. Qed.

Lemma keeps_heap_mul v k : keeps_heap (Python.mul v k).
Proof. intros s. by destruct v. Qed.

Lemma keeps_heap_elements v : keeps_heap (Python.elements v).
Proof.
  intros s. destruct v; try done. simpl. by destruct (heap s !! l).
Qed.

Lemma keeps_heap_call rl ins : keeps_heap (Keras.call rl ins).
Proof.
  intros s. unfold Keras.call. destruct rl as [l|e]; [|done].
  by destruct (Keras.compute_output_shape l _).
Qed.

Lemma keeps_heap_for_each {A B} (f : A -> B -> M A) l :
  (forall x b, keeps_heap (f x b)) -> forall x, keeps_heap (for_each l f x).
Proof.
  intros Hf. induction l as [|b l IH]; intros x; simpl.
  - apply keeps_heap_ret.
  - apply keeps_heap_bind; [apply Hf | apply IH].
Qed.

Lemma keeps_heap_call_kw {A} (f : tensor -> value -> gmap string value -> M A) x ds :
  (forall iw mp, keeps_heap (f x iw mp)) -> keeps_heap (Python.call_kw f x ds).
Proof.
  intros Hf s. unfold Python.call_kw.
  destruct (Python.merge_all ds); [|done]. case_bool_decide; [done|]. apply Hf.
Qed.

(** Outcomes: what a computation can raise. *)

Lemma raises_only_ret {A} P (a : A) : raises_only P (ret a).
Proof. intros s e s' [=]. Qed.

Lemma raises_only_raise {A} (P : exn -> Prop) e : P e -> raises_only P (@raise A e).
Proof. intros He s e' s' [= <- _]. done. Qed.

Lemma raises_only_bind {A B} P (m : M A) (k : A -> M B) :
  raises_only P m -> (forall a, raises_only P (k a)) -> raises_only P (bind m k).
Proof.
  intros Hm Hk s e s' H. apply bind_Raise in H as [H | (a & s1 & _ & H)].
  - by eapply Hm.
  - by eapply Hk.
Qed.

Lemma raises_only_for_each {A B} P (f : A -> B -> M A) l :
  (forall x b, raises_only P (f x b)) -> forall x, raises_only P (for_each l f x).
Proof.
  intros Hf. induction l as [|b l IH]; intros x; simpl.
  - apply raises_only_ret.
  - apply raises_only_bind; [apply Hf | apply IH].
Qed.

Lemma raises_only_call_kw {A} (P : exn -> Prop)
    (f : tensor -> value -> gmap string value -> M A) x ds :
  P TypeError ->
  (forall kw iw, Python.merge_all ds = Ok kw ->
     raises_only P (f x iw (delete "init_weights" kw))) ->
  raises_only P (Python.call_kw f x ds).
Proof.
  intros HP Hf s e s'. unfold Python.call_kw.
  destruct (Python.merge_all ds) as [kw|e0] eqn:Hkw.
  - case_bool_decide.
    + intros [= <- _]. done.
    + by apply Hf.
  - intros [= <- _]. clear Hf. revert e0 Hkw.
    induction ds as [|d ds IH]; intros e0 Hkw; simpl in Hkw; [discriminate|].
    destruct (Python.merge_all ds) as [kw'|e1].
    + unfold Python.merge in Hkw. case_bool_decide; [discriminate|].
      by injection Hkw as <-.
    + injection Hkw as <-. by eapply IH.
Qed.

Lemma raises_only_getitem d k :
  is_Some (d !! k) \/ k = "n_filters" ->
  raises_only from_framework_or_builtin (Python.getitem d k).
Proof.
  intros Hk s e s'. unfold Python.getitem.
  destruct (d !! k) eqn:Hd; [discriminate|]. intros [= <- _].
  destruct Hk as [[? ?]| ->]; [discriminate | done].
Qed.

Lemma raises_only_first {A} (l : list A) :
  raises_only from_framework_or_builtin (Python.first l).
Proof. intros s e s'. destruct l; [|discriminate]. by intros [= <- _]. Qed.

Lemma raises_only_call rl ins :
  (forall e, rl = Raise e -> from_framework_or_builtin e) ->
  raises_only from_framework_or_builtin (Keras.call rl ins).
Proof.
  intros Hrl s e s'. unfold Keras.call. destruct rl as [l|e0].
  - destruct (Keras.compute_output_shape l _); [discriminate|].
    by intros [= <- _].
  - intros [= <- _]. by apply Hrl.
Qed.

Lemma Conv2D_raises v ks st pad act iw rg e :
  Keras.Conv2D v ks st pad act iw rg = Raise e -> from_framework_or_builtin e.
Proof.
  unfold Keras.Conv2D.
  destruct v, (Keras.get_padding pad), (Keras.get_activation act),
    (Keras.get_initializer iw), (Keras.get_regularizer rg);
    try (by intros [= <-]).
  destruct (_ && _); [discriminate | by intros [= <-]].
Qed.

Lemma ReLU_raises v e : Keras.ReLU v = Raise e -> from_framework_or_builtin e.
Proof.
  unfold Keras.ReLU. destruct v; try (by intros [= <-]); try discriminate.
  - destruct (0 <=? z); [discriminate | by intros [= <-]].
  - destruct (Qle_bool 0 q); [discriminate | by intros [= <-]].
Qed.

Lemma MaxPooling2D_raises p st e :
  Keras.MaxPooling2D p st = Raise e -> from_framework_or_builtin e.
Proof.
  unfold Keras.MaxPooling2D. destruct (_ && _); [discriminate | by intros [= <-]].
Qed.

Lemma Dropout_raises v e : Keras.Dropout v = Raise e -> from_framework_or_builtin e.
Proof.
  unfold Keras.Dropout. destruct v; try (by intros [= <-]).
  - destruct (_ && _); [discriminate | by intros [= <-]].
  - destruct (_ && _); [discriminate | by intros [= <-]].
Qed.

Lemma Activation_raises a e :
  Keras.Activation a = Raise e -> from_framework_or_builtin e.
Proof.
  unfold Keras.Activation. destruct (Keras.known _ _); [discriminate | by intros [= <-]].
Qed.

Lemma raises_only_Composable_ReLU base x :
  raises_only from_framework_or_builtin (Composable.ReLU base x).
Proof. apply raises_only_call, ReLU_raises. Qed.

Lemma raises_only_Input input_shape :
  raises_only from_framework_or_builtin (Keras.Input input_shape).
Proof.
  intros s e s'. unfold Keras.Input. destruct (forallb _ _); [discriminate|].
  by intros [= <- _].
Qed.

Create HintDb raises.
#[local] Hint Resolve raises_only_ret raises_only_first raises_only_Composable_ReLU
  raises_only_Input : raises.
#[local] Hint Extern 1 (raises_only _ (Keras.call _ _)) =>
  apply raises_only_call; intros ?;
  first [ apply Conv2D_raises | apply MaxPooling2D_raises | apply Dropout_raises
        | apply Activation_raises | discriminate ] : raises.

Section Steps.

Variable base : Composable.attributes.

(** A fire block that returns: its six nodes, and the hyperparameters the
    framework accepted. *)
Lemma fire_block_Ok x init_weights metaparameters n s t s' :
  metaparameters !! "n_filters" = Some (VInt n) ->
  SqueezeNet.fire_block base x init_weights metaparameters s = (Ok t, s') ->
  exists h w ch i r c,
    tensor_shape x = [h; w; ch] /\
    Keras.get_initializer
      match init_weights with
      | VNone => SqueezeNet.init_weights
      | _ => init_weights
      end = Some i /\
    Keras.get_regularizer
      match metaparameters !! "reg" with
      | Some r => r
      | None => SqueezeNet.reg base
      end = Some r /\
    Keras.ReLU (Composable.relu base) = Ok (LReLU c) /\
    heap s' = heap s /\
    graph s' = graph s ++
      fire_nodes (length (graph s)) (node_index x) h w n i r c /\
    t = Tensor (length (graph s) + 5) [h; w; n * 4 + n * 4].
Proof.
  intros Hn H. unfold SqueezeNet.fire_block in H.
  step H. apply getitem_Ok in H0 as [Hn' <-]. rewrite Hn in Hn'.
  injection Hn' as <-.
  step H. apply conv_call_Ok in H0
    as (n' & h & w & ch & act & i & r & [= <-] & Hpos & Hx & Ha & Hi & Hr & -> & ->).
  apply known_relu in Ha as ->.
  step H. apply ret_Ok in H0 as [<- <-].
  step H. apply conv_call_Ok in H0
    as (n' & h1 & w1 & ch1 & act1 & i1 & r1 & [= <-] & _ & [= <- <- <-] & [= <-] & Hi1 & Hr1 & -> & ->).
  step H. apply Composable_ReLU_Ok in H0 as (c & Hc & -> & ->).
  step H. apply ret_Ok in H0 as [<- <-].
  step H. apply conv_call_Ok in H0
    as (n' & h3 & w3 & ch3 & act3 & i3 & r3 & [= <-] & _ & [= <- <- <-] & [= <-] & Hi3 & Hr3 & -> & ->).
  step H. apply Composable_ReLU_Ok in H0 as (c' & Hc' & -> & ->).
  apply call_Ok in H as (l & [= <-] & Hsh & Hti & ->).
  simpl in *. rewrite !same_stride_1 in *.
  rewrite Hi in Hi1, Hi3. rewrite Hr in Hr1, Hr3. rewrite Hc in Hc'.
  injection Hi1 as <-. injection Hi3 as <-. injection Hr1 as <-.
  injection Hr3 as <-. injection Hc' as <-.
  rewrite bool_decide_eq_true_2 in Hsh by done. injection Hsh as Hsh.
  exists h, w, ch, i, r, c. do 5 (split; [done|]).
  rewrite !length_app in *. simpl in *.
  split.
  - rewrite <- !app_assoc. simpl. unfold fire_nodes.
    repeat f_equal; first [lia | done].
  - destruct t as [ti ts]. simpl in *. subst. f_equal. lia.
Qed.

(** The call [fire_block(x, init_weights=init_weights, **block,
    **metaparameters)] of a group. *)
Lemma fire_in_group_Ok x iw b mp rv i s t s' :
  mp !! "n_filters" = None ->
  mp !! "reg" = Some rv ->
  iw <> VNone ->
  Keras.get_initializer iw = Some i ->
  Python.call_kw (SqueezeNet.fire_block base) x
    [ {[ "init_weights" := iw ]}; Python.unpack b; mp ] s = (Ok t, s') ->
  exists n h w ch r c,
    b !! "n_filters" = Some n /\
    tensor_shape x = [h; w; ch] /\
    Keras.get_regularizer rv = Some r /\
    Keras.ReLU (Composable.relu base) = Ok (LReLU c) /\
    heap s' = heap s /\
    graph s' = graph s ++
      fire_nodes (length (graph s)) (node_index x) h w n i r c /\
    t = Tensor (length (graph s) + 5) [h; w; n * 4 + n * 4].
Proof.
  intros Hnf Hreg Hiw Hi H.
  apply call_kw_Ok in H as (kw & Hkw & _ & H).
  apply merge_all_cons in Hkw as (kw' & Hkw' & Hd & ->).
  apply merge_all_pair in Hkw' as [Hd' ->].
  rewrite lookup_union_l', lookup_singleton_eq in H
    by (rewrite lookup_singleton_eq; eauto).
  simpl in H.
  set (mp' := delete "init_weights" _) in H.
  assert (Hreg' : mp' !! "reg" = Some rv).
  { unfold mp'. rewrite lookup_delete_ne by done.
    rewrite lookup_union_r by (by rewrite lookup_singleton_ne).
    rewrite lookup_union_r; [done|]. eapply disjoint_lookup; eauto. }
  assert (Hnf' : mp' !! "n_filters" = VInt <$> b !! "n_filters").
  { unfold mp'. rewrite lookup_delete_ne by done.
    rewrite lookup_union_r by (by rewrite lookup_singleton_ne).
    rewrite lookup_union_l by done. apply unpack_lookup. }
  destruct (b !! "n_filters") as [n|] eqn:Hb.
  - destruct (fire_block_Ok _ _ _ _ _ _ _ Hnf' H)
      as (h & w & ch & i' & r & c & Hx & Hi' & Hr & Hc & Hh & Hg & Ht).
    rewrite Hreg' in Hr.
    assert (i' = i) as ->.
    { destruct iw; try done; congruence. }
    exists n, h, w, ch, r, c. done.
  - unfold SqueezeNet.fire_block in H. step H.
    apply getitem_Ok in H0 as [Hn _]. rewrite Hnf' in Hn. discriminate.
Qed.

Lemma fire_layers_nodes k x h w n i r c :
  node_layer <$> fire_nodes k x h w n i r c = fire_layers n i r c.
Proof. reflexivity. Qed.

(** The loop over the blocks of a group. *)
Lemma group_loop_Ok mp rv iw i r c bs : forall x s t s',
  mp !! "n_filters" = None ->
  mp !! "reg" = Some rv ->
  iw <> VNone ->
  Keras.get_initializer iw = Some i ->
  Keras.get_regularizer rv = Some r ->
  Keras.ReLU (Composable.relu base) = Ok (LReLU c) ->
  for_each bs
    (fun x block =>
       Python.call_kw (SqueezeNet.fire_block base) x
         [ {[ "init_weights" := iw ]}; Python.unpack block; mp ]) x s
    = (Ok t, s') ->
  declares_filters bs /\ heap s' = heap s /\
  adds s s' (flat_map (fun b => fire_layers (n_filters b) i r c) bs).
Proof.
  induction bs as [|b bs IH]; intros x s t s' Hnf Hreg Hiw Hi Hr Hc H; simpl in H.
  - apply ret_Ok in H as [_ <-]. split; [constructor|].
    split; [done|]. apply adds_refl.
  - step H.
    eapply fire_in_group_Ok in H0
      as (n & h & w & ch & r' & c' & Hb & Hx & Hr' & Hc' & Hh & Hg & Ht); eauto.
    assert (r' = r) as -> by congruence.
    assert (c' = c) as -> by congruence.
    destruct (IH _ _ _ _ Hnf Hreg Hiw Hi Hr Hc H) as (Hbs & Hh' & Ha).
    split; [constructor; eauto|]. split; [congruence|].
    cbn [flat_map]. apply adds_trans with s0; [|done].
    replace (n_filters b) with n by (unfold n_filters; by rewrite Hb).
    rewrite <- (fire_layers_nodes (length (graph s)) (node_index x) h w).
    by apply adds_nodes.
Qed.

Lemma group_Ok x iw mp bs rv i r c s t s' :
  mp !! "blocks" = Some (VBlocks bs) ->
  mp !! "n_filters" = None ->
  mp !! "reg" = Some rv ->
  Keras.get_initializer
    match iw with
    | VNone => SqueezeNet.init_weights
    | _ => iw
    end = Some i ->
  Keras.get_regularizer rv = Some r ->
  Keras.ReLU (Composable.relu base) = Ok (LReLU c) ->
  SqueezeNet.group base x iw mp s = (Ok t, s') ->
  declares_filters bs /\ heap s' = heap s /\
  adds s s' (group_layers i r c bs).
Proof.
  intros Hbs Hnf Hreg Hi Hr Hc H. unfold SqueezeNet.group in H.
  step H. apply getitem_Ok in H0 as [Hb <-]. rewrite Hbs in Hb.
  injection Hb as <-. step H. simpl in H0. apply ret_Ok in H0 as [<- <-].
  step H.
  eapply group_loop_Ok in H0 as (Hd & Hh & Ha); eauto.
  2: { destruct iw; done. }
  apply pool_call_Ok in H as (h & w & ch & _ & _ & _ & _ & ->); [|done..].
  split; [done|]. split; [done|]. unfold group_layers.
  eapply adds_trans; [exact Ha|]. eexists. simpl. done.
Qed.

(** The call [fire_block(x, **last[0], **metaparameters)] of the learner. *)
Lemma fire_last_Ok x b mp rv s t s' :
  mp !! "n_filters" = None ->
  mp !! "reg" = Some rv ->
  mp !! "init_weights" = None ->
  Python.call_kw (SqueezeNet.fire_block base) x [ Python.unpack b; mp ] s
    = (Ok t, s') ->
  exists n h w ch r c,
    b !! "n_filters" = Some n /\
    tensor_shape x = [h; w; ch] /\
    Keras.get_regularizer rv = Some r /\
    Keras.ReLU (Composable.relu base) = Ok (LReLU c) /\
    heap s' = heap s /\
    graph s' = graph s ++
      fire_nodes (length (graph s)) (node_index x) h w n
        (Some "glorot_uniform") r c /\
    t = Tensor (length (graph s) + 5) [h; w; n * 4 + n * 4].
Proof.
  intros Hnf Hreg Hiw H.
  apply call_kw_Ok in H as (kw & Hkw & _ & H).
  apply merge_all_pair in Hkw as [Hd ->].
  rewrite (lookup_union_l _ _ "init_weights"), unpack_lookup in H by done.
  set (mp' := delete "init_weights" _) in H.
  assert (Hreg' : mp' !! "reg" = Some rv).
  { unfold mp'. rewrite lookup_delete_ne by done.
    rewrite lookup_union_r; [done|]. eapply disjoint_lookup; eauto. }
  assert (Hnf' : mp' !! "n_filters" = VInt <$> b !! "n_filters").
  { unfold mp'. rewrite lookup_delete_ne by done.
    rewrite lookup_union_l by done. apply unpack_lookup. }
  destruct (b !! "n_filters") as [n|] eqn:Hb.
  - destruct (fire_block_Ok _ _ _ _ _ _ _ Hnf' H)
      as (h & w & ch & i' & r & c & Hx & Hi' & Hr & Hc & Hh & Hg & Ht).
    rewrite Hreg' in Hr.
    assert (i' = Some "glorot_uniform") as ->.
    { destruct (b !! "init_weights"); simpl in Hi'; [discriminate|].
      vm_compute in Hi'. congruence. }
    exists n, h, w, ch, r, c. done.
  - unfold SqueezeNet.fire_block in H. step H.
    apply getitem_Ok in H0 as [Hn _]. rewrite Hnf' in Hn. discriminate.
Qed.

(** The call [group(x, blocks=group, **metaparameters)] of the learner. *)
Lemma group_in_learner_Ok x g mp rv r c s t s' :
  mp !! "n_filters" = None ->
  mp !! "reg" = Some rv ->
  mp !! "init_weights" = None ->
  Keras.get_regularizer rv = Some r ->
  Keras.ReLU (Composable.relu base) = Ok (LReLU c) ->
  Python.call_kw (SqueezeNet.group base) x [ {[ "blocks" := VBlocks g ]}; mp ] s
    = (Ok t, s') ->
  declares_filters g /\ heap s' = heap s /\
  adds s s' (group_layers (Some "glorot_uniform") r c g).
Proof.
  intros Hnf Hreg Hiw Hr Hc H.
  apply call_kw_Ok in H as (kw & Hkw & _ & H).
  apply merge_all_pair in Hkw as [Hd ->].
  rewrite (lookup_union_r _ _ "init_weights") in H
    by (by rewrite lookup_singleton_ne).
  rewrite Hiw in H. simpl in H.
  eapply group_Ok in H; eauto.
  - rewrite lookup_delete_ne by done.
    rewrite lookup_union_l', lookup_singleton_eq; [done|].
    rewrite lookup_singleton_eq; eauto.
  - rewrite lookup_delete_ne by done.
    rewrite lookup_union_r by (by rewrite lookup_singleton_ne). done.
  - rewrite lookup_delete_ne by done.
    rewrite lookup_union_r by (by rewrite lookup_singleton_ne). done.
Qed.

(** The loop over the groups that are left after the [pop]. *)
Lemma learner_loop_Ok mp rv r c gs : forall x s t s',
  mp !! "n_filters" = None ->
  mp !! "reg" = Some rv ->
  mp !! "init_weights" = None ->
  Keras.get_regularizer rv = Some r ->
  Keras.ReLU (Composable.relu base) = Ok (LReLU c) ->
  for_each gs
    (fun x g =>
       Python.call_kw (SqueezeNet.group base) x
         [ {[ "blocks" := VBlocks g ]}; mp ]) x s = (Ok t, s') ->
  Forall declares_filters gs /\ heap s' = heap s /\
  adds s s' (flat_map (group_layers (Some "glorot_uniform") r c) gs).
Proof.
  induction gs as [|g gs IH]; intros x s t s' Hnf Hreg Hiw Hr Hc H; simpl in H.
  - apply ret_Ok in H as [_ <-]. split; [constructor|].
    split; [done|]. apply adds_refl.
  - step H. eapply group_in_learner_Ok in H0 as (Hg & Hh & Ha); eauto.
    destruct (IH _ _ _ _ Hnf Hreg Hiw Hr Hc H) as (Hgs & Hh' & Ha').
    split; [by constructor|]. split; [congruence|].
    cbn [flat_map]. by apply adds_trans with s0.
Qed.

Lemma learner_Ok self x mp l d rv r c s t s' :
  mp !! "groups" = Some (VList l) ->
  mp !! "dropout" = Some (VFloat d) ->
  mp !! "reg" = Some rv ->
  mp !! "n_filters" = None ->
  mp !! "init_weights" = None ->
  Keras.get_regularizer rv = Some r ->
  Keras.ReLU (Composable.relu base) = Ok (LReLU c) ->
  SqueezeNet.learner base self x mp s = (Ok t, s') ->
  exists gs b rest,
    heap s !! l = Some (gs ++ [b :: rest]) /\
    heap s' = <[l := gs]> (heap s) /\
    Forall declares_filters gs /\ is_Some (b !! "n_filters") /\
    adds s s' (learner_layers (Some "glorot_uniform") r c gs b d) /\
    node_index t = Nat.pred (length (graph s')).
Proof.
  intros Hg Hd Hreg Hnf Hiw Hr Hc H. unfold SqueezeNet.learner in H.
  step H as v s0 H0. apply getitem_Ok in H0 as [Hg' <-]. rewrite Hg in Hg'.
  injection Hg' as <-. rewrite Hd in H.
  step H as last s1 H1. apply pop_Ok in H1 as (l' & gs & [= <-] & Hl & ->).
  step H as gs' s2 H2. apply elements_Ok in H2 as [Hl' ->]. simpl in Hl'.
  rewrite lookup_insert_eq in Hl'. injection Hl' as <-.
  step H as x1 s3 H3. eapply learner_loop_Ok in H3 as (Hgs & Hh & Ha); eauto.
  step H as b s4 H4. apply first_Ok in H4 as (rest & -> & ->).
  step H as x2 s5 H5. eapply fire_last_Ok in H5
    as (n & h & w & ch & r' & c' & Hb & Hx & Hr' & Hc' & Hh' & Hg' & Ht); eauto.
  assert (r' = r) as -> by congruence.
  assert (c' = c) as -> by congruence.
  apply dropout_call_Ok in H as (Hh'' & Ha'' & ->).
  exists gs, b, rest. split; [done|].
  split; [rewrite Hh'', Hh', Hh; done|].
  split; [done|]. split; [eauto|]. split.
  - unfold learner_layers.
    eapply adds_trans; [exact Ha|]. eapply adds_trans; [|exact Ha''].
    replace (n_filters b) with n by (unfold n_filters; by rewrite Hb).
    rewrite <- (fire_layers_nodes (length (graph s3)) (node_index x1) h w).
    by apply adds_nodes.
  - destruct Ha'' as (ns & -> & Hns). destruct ns as [|? [|? ?]]; try discriminate.
    rewrite length_app. simpl. lia.
Qed.

Lemma stem_Ok self inputs mp rv s t s' :
  mp !! "reg" = Some rv ->
  SqueezeNet.stem base self inputs mp s = (Ok t, s') ->
  exists h w ch i r c,
    tensor_shape inputs = [h; w; ch] /\
    Keras.get_initializer (Composable.self_init_weights self) = Some i /\
    Keras.get_regularizer rv = Some r /\
    Keras.ReLU (Composable.relu base) = Ok (LReLU c) /\
    3 <= (h + 2 - 1) / 2 /\ 3 <= (w + 2 - 1) / 2 /\
    heap s' = heap s /\
    graph s' = graph s ++
      [ Node (LConv2D 96 (7, 7) (2, 2) same None i r) [node_index inputs]
          [(h + 2 - 1) / 2; (w + 2 - 1) / 2; 96];
        Node (LReLU c) [length (graph s)]
          [(h + 2 - 1) / 2; (w + 2 - 1) / 2; 96];
        Node (LMaxPooling2D (3, 3) (2, 2)) [S (length (graph s))]
          [((h + 2 - 1) / 2 - 3) / 2 + 1; ((w + 2 - 1) / 2 - 3) / 2 + 1; 96] ] /\
    t = Tensor (length (graph s) + 2)
          [((h + 2 - 1) / 2 - 3) / 2 + 1; ((w + 2 - 1) / 2 - 3) / 2 + 1; 96].
Proof.
  intros Hreg H. unfold SqueezeNet.stem in H.
  step H as rv' s0 H0. apply getitem_Ok in H0 as [Hrv <-].
  rewrite Hreg in Hrv. injection Hrv as <-.
  step H as x1 s1 H1. apply conv_call_Ok in H1
    as (n & h & w & ch & a & i & r & [= <-] & _ & Hx & [= <-] & Hi & Hr & -> & ->).
  step H as x2 s2 H2. apply Composable_ReLU_Ok in H2 as (c & Hc & -> & ->).
  apply pool_call_Ok in H
    as (h' & w' & c' & [= <- <- <-] & Hh & Hw & -> & ->); [|done..].
  simpl in *. exists h, w, ch, i, r, c. do 6 (split; [done|]).
  split; [done|]. rewrite !length_app. simpl. split.
  - rewrite <- !app_assoc. simpl. repeat f_equal; lia.
  - f_equal. lia.
Qed.

Lemma classifier_Ok self x v mp rv s t self' s' :
  mp !! "reg" = Some rv ->
  SqueezeNet.classifier base self x v mp s = (Ok (t, self'), s') ->
  exists n h w ch i r c,
    v = VInt n /\ 0 < n /\
    tensor_shape x = [h; w; ch] /\
    Keras.get_initializer (Composable.self_init_weights self) = Some i /\
    Keras.get_regularizer rv = Some r /\
    Keras.ReLU (Composable.relu base) = Ok (LReLU c) /\
    heap s' = heap s /\
    graph s' = graph s ++
      [ Node (LConv2D n (1, 1) (1, 1) same None i r) [node_index x] [h; w; n];
        Node (LReLU c) [length (graph s)] [h; w; n];
        Node LGlobalAveragePooling2D [S (length (graph s))] [n];
        Node (LActivation "softmax") [S (S (length (graph s)))] [n] ] /\
    t = Tensor (length (graph s) + 3) [n] /\
    Composable.encoding self' = Some x /\
    Composable.probabilities self' = Some (Tensor (length (graph s) + 2) [n]) /\
    Composable.softmax self' = Some t /\
    Composable._model self' = Composable._model self /\
    Composable.self_init_weights self' = Composable.self_init_weights self /\
    Composable.self_reg self' = Composable.self_reg self /\
    Composable.self_relu self' = Composable.self_relu self.
Proof.
  intros Hreg H. unfold SqueezeNet.classifier in H.
  step H as rv' s0 H0. apply getitem_Ok in H0 as [Hrv <-].
  rewrite Hreg in Hrv. injection Hrv as <-.
  step H as x1 s1 H1. apply conv_call_Ok in H1
    as (n & h & w & ch & a & i & r & -> & Hn & Hx & [= <-] & Hi & Hr & -> & ->).
  step H as x2 s2 H2. apply Composable_ReLU_Ok in H2 as (c & Hc & -> & ->).
  step H as x3 s3 H3. apply call_Ok in H3 as (l3 & [= <-] & Hs3 & Hi3 & ->).
  step H as x4 s4 H4. apply call_Ok in H4 as (l4 & [= <-] & Hs4 & Hi4 & ->).
  apply ret_Ok in H as [[= <- <-] <-].
  simpl in *. rewrite !same_stride_1 in *.
  injection Hs3 as Hs3. injection Hs4 as Hs4.
  destruct x3 as [i3 sh3], x4 as [i4 sh4]. simpl in *. subst.
  rewrite !length_app. simpl.
  exists n, h, w, ch, i, r, c. do 7 (split; [done|]). split.
  - rewrite <- !app_assoc. simpl. repeat f_equal; lia.
  - repeat split; try done; [f_equal; lia | do 2 f_equal; lia].
Qed.

Lemma Input_Ok input_shape t s s' :
  Keras.Input input_shape s = (Ok t, s') ->
  Forall (fun d => 0 < d) input_shape /\
  t = Tensor (length (graph s)) input_shape /\
  s' = State (heap s) (graph s ++ [Node (InputLayer input_shape) [] input_shape]).
Proof.
  unfold Keras.Input. destruct (forallb _ _) eqn:Hd; [|discriminate].
  unfold Keras.add_node. intros [= <- <-]. split; [|done].
  apply Forall_forall. intros d Hin. apply list_elem_of_In in Hin.
  rewrite forallb_forall in Hd. apply Hd in Hin. lia.
Qed.

Lemma get_regularizer_of_reg reg :
  Keras.get_regularizer (SqueezeNet.of_reg reg) = Some reg.
Proof. by destruct reg. Qed.

Lemma get_initializer_VStr iw i :
  Keras.get_initializer (VStr iw) = Some i ->
  i = Some iw /\ Keras.known Keras.known_initializers iw = true.
Proof.
  simpl. destruct (Keras.known _ iw); [|discriminate]. by intros [= <-].
Qed.

(** The constructor, when it returns: the store, the model and its layers. *)
Lemma init_Ok groups dropout input_shape n_classes iw reg relu s self s' :
  SqueezeNet.__init__ base groups dropout input_shape n_classes iw reg relu s
    = (Ok self, s') ->
  exists gs b rest c m,
    heap s !! default SqueezeNet.groups_ref groups = Some (gs ++ [b :: rest]) /\
    heap s' = <[default SqueezeNet.groups_ref groups := gs]> (heap s) /\
    Forall declares_filters gs /\ is_Some (b !! "n_filters") /\
    Keras.ReLU (Composable.relu base) = Ok (LReLU c) /\
    0 < n_classes /\
    Keras.known Keras.known_initializers iw = true /\
    Composable._model self = Some m /\
    graph s' = graph s ++ Keras.layers m /\
    node_layer <$> Keras.layers m =
      model_layers input_shape gs b dropout n_classes iw reg c /\
    Keras.inputs m = Tensor (length (graph s)) input_shape /\
    Keras.outputs m = Tensor (Nat.pred (length (graph s'))) [n_classes] /\
    Composable.self_init_weights self = VStr iw /\
    Composable.self_reg self = SqueezeNet.of_reg reg /\
    Composable.self_relu self = SqueezeNet.of_relu relu.
Proof.
  intros H. unfold SqueezeNet.__init__ in H.
  step H as inputs s1 H1. apply Input_Ok in H1 as (_ & -> & ->).
  step H as x1 s2 H2.
  eapply stem_Ok in H2
    as (h & w & ch & i & r & c & Hin & Hi & Hr & Hc & _ & _ & Hh2 & Hg2 & ->);
    [|apply lookup_singleton_eq].
  rewrite get_regularizer_of_reg in Hr. injection Hr as <-.
  apply get_initializer_VStr in Hi as [-> Hk].
  step H as x2 s3 H3.
  eapply learner_Ok with (l := default SqueezeNet.groups_ref groups) (d := dropout)
    in H3 as (gs & b & rest & Hl & Hh3 & Hgs & Hb & (ns & Hg3 & Hns) & Hx2);
    [| by destruct groups | done | done | done | done
     | apply get_regularizer_of_reg | exact Hc ].
  step H as r4 s4 H4. destruct r4 as [outputs self4].
  eapply classifier_Ok in H4
    as (n & h4 & w4 & ch4 & i4 & r4 & c4 & [= <-] & Hn & _ & Hi4 & Hr4 & Hc4 & Hh4
        & Hg4 & -> & _ & _ & _ & Hm4 & Hf1 & Hf2 & Hf3);
    [|apply lookup_singleton_eq].
  rewrite get_regularizer_of_reg in Hr4. injection Hr4 as <-.
  apply get_initializer_VStr in Hi4 as [-> _].
  assert (c4 = c) as -> by congruence.
  step H as m s5 H5. unfold Keras.Model in H5. injection H5 as <- <-.
  apply ret_Ok in H as [<- <-]. simpl in *.
  rewrite Hg3, Hg2, <- !app_assoc in Hg4. simpl in Hg4.
  match type of Hg4 with _ = _ ++ ?l => set (new := l) in * end.
  assert (Hlen : length (graph s4) = S (length (graph s3) + 3)).
  { rewrite Hg4, Hg3, Hg2. unfold new. rewrite !length_app. simpl.
    rewrite !length_app. simpl. lia. }
  assert (Hnew : drop (length (graph s))
                   (take (S (length (graph s3) + 3)) (graph s4)) = new).
  { rewrite <- Hlen, firstn_all, Hg4. apply drop_app_length. }
  rewrite Hh2 in Hl.
  eexists gs, b, rest, c, _. split; [exact Hl|].
  split; [by rewrite Hh4, Hh3, Hh2|].
  do 5 (split; [done|]). split; [reflexivity|]. simpl. rewrite Hnew.
  split; [done|]. split.
  - unfold new, model_layers, stem_layers, classifier_layers.
    simpl. rewrite fmap_app, Hns. done.
  - split; [done|]. rewrite Hlen. done.
Qed.

Lemma keeps_heap_fire_block x iw mp :
  keeps_heap (SqueezeNet.fire_block base x iw mp).
Proof.
  unfold SqueezeNet.fire_block, Composable.ReLU.
  repeat (apply keeps_heap_bind; [|intros ?]);
    auto using keeps_heap_getitem, keeps_heap_call, keeps_heap_mul.
Qed.

Lemma keeps_heap_group x iw mp : keeps_heap (SqueezeNet.group base x iw mp).
Proof.
  unfold SqueezeNet.group.
  repeat (apply keeps_heap_bind; [|intros ?]);
    auto using keeps_heap_getitem, keeps_heap_call, keeps_heap_blocks_of.
  apply keeps_heap_for_each. intros ? ?.
  apply keeps_heap_call_kw. intros ? ?. apply keeps_heap_fire_block.
Qed.

(** The learner changes the store by its [pop] and by nothing else, also
    when one of the later steps raises. *)
Lemma learner_heap self x mp l gs g s :
  mp !! "groups" = Some (VList l) ->
  heap s !! l = Some (gs ++ [g]) ->
  heap (SqueezeNet.learner base self x mp s).2 = <[l := gs]> (heap s).
Proof.
  intros Hg Hl. unfold SqueezeNet.learner.
  erewrite bind_run by (by apply getitem_run).
  assert (Hpop : Python.pop (VList l) s
                 = (Ok g, State (<[l := gs]> (heap s)) (graph s))).
  { unfold Python.pop. rewrite Hl, last_snoc, removelast_last. done. }
  erewrite bind_run by exact Hpop.
  match goal with |- heap (?m ?s1).2 = _ =>
    assert (Hk : keeps_heap m); [|exact (Hk s1)] end.
  repeat (apply keeps_heap_bind; [|intros ?]);
    auto using keeps_heap_elements, keeps_heap_first, keeps_heap_call.
  - apply keeps_heap_for_each. intros ? ?.
    apply keeps_heap_call_kw. intros ? ?. apply keeps_heap_group.
  - apply keeps_heap_call_kw. intros ? ?. apply keeps_heap_fire_block.
Qed.

Lemma raises_only_fire_block x iw mp :
  raises_only from_framework_or_builtin (SqueezeNet.fire_block base x iw mp).
Proof.
  intros s e s' H. unfold SqueezeNet.fire_block in H.
  apply bind_Raise in H as [H | (v & s1 & _ & H)].
  { eapply raises_only_getitem; [|exact H]. by right. }
  apply bind_Raise in H as [H | (squeeze & s2 & Hsq & H)].
  { revert H. apply raises_only_call. intros ?. apply Conv2D_raises. }
  apply conv_call_Ok in Hsq as (n & _ & _ & _ & _ & _ & _ & -> & _).
  revert H. simpl Python.mul.
  repeat (apply raises_only_bind; [|intros ?]); auto with raises.
Qed.

Lemma raises_only_group x iw mp bs :
  mp !! "blocks" = Some (VBlocks bs) ->
  raises_only from_framework_or_builtin (SqueezeNet.group base x iw mp).
Proof.
  intros Hbs s e s' H. unfold SqueezeNet.group in H.
  erewrite bind_run in H by (by apply getitem_run).
  erewrite bind_run in H by reflexivity.
  revert H. apply raises_only_bind; [|intros ?; auto with raises].
  apply raises_only_for_each. intros ? ?.
  apply raises_only_call_kw; [done|]. intros ? ? _.
  apply raises_only_fire_block.
Qed.

Lemma raises_only_learner self x mp l gs s e s' :
  mp !! "groups" = Some (VList l) ->
  heap s !! l = Some gs ->
  SqueezeNet.learner base self x mp s = (Raise e, s') ->
  from_framework_or_builtin e.
Proof.
  intros Hg Hl H. unfold SqueezeNet.learner in H.
  erewrite bind_run in H by (by apply getitem_run).
  apply bind_Raise in H as [H | (last & s1 & Hpop & H)].
  { unfold Python.pop in H. rewrite Hl in H.
    destruct (last gs); [discriminate|]. by injection H as <- _. }
  apply pop_Ok in Hpop as (l' & init & [= <-] & _ & ->).
  erewrite bind_run in H
    by (unfold Python.elements; simpl; by rewrite lookup_insert_eq).
  revert H.
  repeat (apply raises_only_bind; [|intros ?]); auto with raises.
  - apply raises_only_for_each. intros ? g.
    apply raises_only_call_kw; [done|]. intros kw ? Hkw.
    apply raises_only_group with g.
    apply merge_all_pair in Hkw as [_ ->].
    rewrite lookup_delete_ne by done.
    rewrite lookup_union_l', lookup_singleton_eq; [done|].
    rewrite lookup_singleton_eq; eauto.
  - apply raises_only_call_kw; [done|]. intros ? ? _.
    apply raises_only_fire_block.
Qed.

Lemma raises_only_stem self inputs rv :
  raises_only from_framework_or_builtin
    (SqueezeNet.stem base self inputs {[ "reg" := rv ]}).
Proof.
  unfold SqueezeNet.stem.
  repeat (apply raises_only_bind; [|intros ?]); auto with raises.
  apply raises_only_getitem. left. rewrite lookup_singleton_eq. eauto.
Qed.

Lemma raises_only_classifier self x v rv :
  raises_only from_framework_or_builtin
    (SqueezeNet.classifier base self x v {[ "reg" := rv ]}).
Proof.
  unfold SqueezeNet.classifier.
  repeat (apply raises_only_bind; [|intros ?]); auto with raises.
  apply raises_only_getitem. left. rewrite lookup_singleton_eq. eauto.
Qed.

End Steps.

Section Claims.

Variable base : Composable.attributes.

(** C5: a call of [fire_block] with filter count [n] that returns has
    added exactly six nodes to the graph: a 1x1 stride-1 squeeze
    convolution with [n] filters and ReLU activation on the input, a 1x1
    and a 3x3 expand convolution with [4 n] filters each on the squeeze
    output, a ReLU layer after each of them, and the concatenation of the
    two branches, whose tensor is the result. *)
Theorem fire_block_structure x init_weights metaparameters n s t s' :
  metaparameters !! "n_filters" = Some (VInt n) ->
  SqueezeNet.fire_block base x init_weights metaparameters s = (Ok t, s') ->
  exists h w ch i r c,
    tensor_shape x = [h; w; ch] /\
    heap s' = heap s /\
    graph s' = graph s ++
      fire_nodes (length (graph s)) (node_index x) h w n i r c /\
    t = Tensor (length (graph s) + 5) [h; w; n * 4 + n * 4].
Proof.
  intros Hn H.
  destruct (fire_block_Ok base _ _ _ _ _ _ _ Hn H)
    as (h & w & ch & i & r & c & Hx & _ & _ & _ & Hh & Hg & Ht).
  exists h, w, ch, i, r, c. done.
Qed.

(** C2, as amended: when the constructor returns, every block of every
    group but the last, and the first block of the last group, has
    contributed exactly one fire block, in table order, with the filter
    count the block declares; the further blocks of the last group
    contribute nothing. *)
Theorem blocks_consumed groups dropout input_shape n_classes init_weights
    reg relu s self s' :
  SqueezeNet.__init__ base groups dropout input_shape n_classes init_weights
    reg relu s = (Ok self, s') ->
  exists gs b rest m,
    heap s !! default SqueezeNet.groups_ref groups = Some (gs ++ [b :: rest]) /\
    Forall declares_filters gs /\ is_Some (b !! "n_filters") /\
    Composable._model self = Some m /\
    squeeze_filters (node_layer <$> Keras.layers m)
      = (n_filters <$> concat gs) ++ [n_filters b] /\
    fire_blocks (node_layer <$> Keras.layers m) = (length (concat gs) + 1)%nat.
Proof.
  intros H.
  destruct (init_Ok base _ _ _ _ _ _ _ _ _ _ H)
    as (gs & b & rest & c & m & Hh & _ & Hgs & Hb & _ & _ & _ & Hm & _ & Hl & _).
  exists gs, b, rest, m. do 4 (split; [done|]). rewrite Hl. split.
  - apply squeeze_filters_model.
  - apply fire_blocks_model.
Qed.

(** C9: every layer of a constructed model is drawn from the catalog:
    convolution (without activation or with ReLU), max pooling and global
    average pooling, concatenation, dropout, the ReLU layer and the
    softmax activation, and the input placeholder. *)
Theorem layers_in_catalog groups dropout input_shape n_classes init_weights
    reg relu s self s' :
  SqueezeNet.__init__ base groups dropout input_shape n_classes init_weights
    reg relu s = (Ok self, s') ->
  exists m,
    Composable._model self = Some m /\
    forall nd, nd ∈ Keras.layers m ->
      in_catalog (node_layer nd) = true /\
      Keras.layer_name (node_layer nd) ∈
        ["InputLayer"; "Conv2D"; "ReLU"; "MaxPooling2D"; "Concatenate";
         "Dropout"; "GlobalAveragePooling2D"; "Activation"].
Proof.
  intros H.
  destruct (init_Ok base _ _ _ _ _ _ _ _ _ _ H)
    as (gs & b & rest & c & m & _ & _ & _ & _ & _ & _ & _ & Hm & _ & Hl & _).
  exists m. split; [done|]. intros nd Hnd.
  pose proof (in_catalog_model input_shape gs b dropout n_classes
                init_weights reg c) as Hc.
  rewrite <- Hl, forallb_forall in Hc. split.
  - apply Hc, list_elem_of_In, list_elem_of_fmap. eauto.
  - destruct (node_layer nd); simpl; set_solver.
Qed.

(** C4: the constructor is the linear composition of its stages.  When
    it returns, the input placeholder of the given shape was created
    first, the stem ran on it, the learner on the stem's output, the
    classifier on the learner's output, each from the state the previous
    stage left; the model goes from the placeholder to the classifier's
    output, the final state is the one the classifier left, and the
    model's nodes are all the nodes created since the start. *)
Theorem init_is_composition groups dropout input_shape n_classes init_weights
    reg relu s self s' :
  SqueezeNet.__init__ base groups dropout input_shape n_classes init_weights
    reg relu s = (Ok self, s') ->
  let self0 := Composable.__init__ (VStr init_weights) (SqueezeNet.of_reg reg)
                 (SqueezeNet.of_relu relu) in
  let gv := match groups with
            | None => SqueezeNet.groups
            | Some l => VList l
            end in
  exists inputs x1 x2 outputs self1 s1 s2 s3 m,
    Keras.Input input_shape s = (Ok inputs, s1) /\
    SqueezeNet.stem base self0 inputs {[ "reg" := SqueezeNet.of_reg reg ]} s1
      = (Ok x1, s2) /\
    SqueezeNet.learner base self0 x1
      (<[ "groups" := gv ]>
         (<[ "dropout" := VFloat dropout ]> {[ "reg" := SqueezeNet.of_reg reg ]}))
      s2 = (Ok x2, s3) /\
    SqueezeNet.classifier base self0 x2 (VInt n_classes)
      {[ "reg" := SqueezeNet.of_reg reg ]} s3 = (Ok (outputs, self1), s') /\
    Composable._model self = Some m /\
    Keras.inputs m = inputs /\ Keras.outputs m = outputs /\
    Keras.layers m = drop (length (graph s)) (graph s').
Proof.
  intros H self0 gv.
  destruct (init_Ok base _ _ _ _ _ _ _ _ _ _ H)
    as (gs & b & rest & c & m & _ & _ & _ & _ & _ & _ & _ & Hm & Hg & _).
  unfold SqueezeNet.__init__ in H. fold self0 gv in H.
  step H as inputs s1 H1. step H as x1 s2 H2. step H as x2 s3 H3.
  step H as r4 s4 H4. destruct r4 as [outputs self1].
  step H as m' s5 H5. unfold Keras.Model in H5. injection H5 as <- <-.
  apply ret_Ok in H as [<- <-]. simpl in *. injection Hm as <-.
  eexists inputs, x1, x2, outputs, self1, s1, s2, s3, _.
  do 4 (split; [eassumption|]). split; [reflexivity|]. simpl.
  do 2 (split; [done|]). rewrite Hg at 2. by rewrite drop_app_length.
Qed.

(** C8: a call of [fire_block] whose keyword arguments have no ['reg']
    takes the class-level regularizer [SqueezeNet.reg], which the class
    inherits from the base, and the block is built: on a rank-3 input,
    with a positive filter count, an initializer and a class-level
    regularizer and clamp the framework accepts, the call returns the
    concatenation and has added the six nodes, the convolutions carrying
    that regularizer. *)
Theorem fire_block_default_reg x init_weights metaparameters n h w ch i r c s :
  metaparameters !! "reg" = None ->
  metaparameters !! "n_filters" = Some (VInt n) ->
  0 < n ->
  tensor_shape x = [h; w; ch] ->
  Keras.get_initializer
    match init_weights with
    | VNone => SqueezeNet.init_weights
    | _ => init_weights
    end = Some i ->
  Keras.get_regularizer (Composable.reg base) = Some r ->
  Keras.ReLU (Composable.relu base) = Ok (LReLU c) ->
  SqueezeNet.reg base = Composable.reg base /\
  SqueezeNet.fire_block base x init_weights metaparameters s
  = (Ok (Tensor (length (graph s) + 5) [h; w; n * 4 + n * 4]),
     State (heap s)
       (graph s ++ fire_nodes (length (graph s)) (node_index x) h w n i r c)).
Proof.
  intros Hreg Hnf Hn Hx Hi Hr Hc. split; [reflexivity|].
  unfold SqueezeNet.fire_block. rewrite Hreg.
  erewrite bind_run by (by apply getitem_run).
  erewrite bind_run by (eapply conv_call_run; eauto).
  simpl Python.mul. unfold ret at 1 2.
  erewrite bind_run by reflexivity.
  erewrite bind_run by (eapply conv_call_run; eauto; lia).
  erewrite bind_run by (by apply Composable_ReLU_run).
  erewrite bind_run by reflexivity.
  erewrite bind_run by (eapply conv_call_run; eauto; lia).
  erewrite bind_run by (by apply Composable_ReLU_run).
  unfold Keras.Concatenate. erewrite call_run.
  2: { simpl. rewrite !same_stride_1.
       rewrite bool_decide_eq_true_2 by done. reflexivity. }
  simpl. rewrite !same_stride_1, !length_app, <- !app_assoc. simpl.
  unfold fire_nodes. rewrite <- !Nat.add_assoc. simpl.
  repeat f_equal; lia.
Qed.

(** C10: the stem is one convolution stage (96 filters, 7x7, stride 2,
    followed by ReLU) and one max pooling (3x3, stride 2), and nothing
    else; on an input of at least 5 by 5 it returns, and the height and
    the width of its output are strictly smaller than those of the input. *)
Theorem stem_reduces_resolution self inputs metaparameters rv i r c h w ch s :
  metaparameters !! "reg" = Some rv ->
  Keras.get_regularizer rv = Some r ->
  Keras.get_initializer (Composable.self_init_weights self) = Some i ->
  Keras.ReLU (Composable.relu base) = Ok (LReLU c) ->
  tensor_shape inputs = [h; w; ch] ->
  5 <= h -> 5 <= w ->
  exists h1 w1 h2 w2,
    0 < h2 < h /\ 0 < w2 < w /\
    SqueezeNet.stem base self inputs metaparameters s
    = (Ok (Tensor (length (graph s) + 2) [h2; w2; 96]),
       State (heap s)
         (graph s ++
          [ Node (LConv2D 96 (7, 7) (2, 2) same None i r) [node_index inputs]
              [h1; w1; 96];
            Node (LReLU c) [length (graph s)] [h1; w1; 96];
            Node (LMaxPooling2D (3, 3) (2, 2)) [S (length (graph s))]
              [h2; w2; 96] ])).
Proof.
  intros Hreg Hr Hi Hc Hx Hh Hw.
  exists ((h + 2 - 1) / 2), ((w + 2 - 1) / 2),
         (((h + 2 - 1) / 2 - 3) / 2 + 1), (((w + 2 - 1) / 2 - 3) / 2 + 1).
  split; [Z.div_mod_to_equations; lia|].
  split; [Z.div_mod_to_equations; lia|].
  unfold SqueezeNet.stem.
  erewrite bind_run by (by apply getitem_run).
  erewrite bind_run by (eapply conv_call_run; eauto; done).
  erewrite bind_run by (by apply Composable_ReLU_run).
  erewrite pool_call_run; [|done|done|reflexivity|..].
  - simpl. rewrite !length_app, <- !app_assoc. simpl.
    rewrite <- !Nat.add_assoc. simpl. repeat f_equal; lia.
  - simpl. Z.div_mod_to_equations; lia.
  - simpl. Z.div_mod_to_equations; lia.
Qed.


(** C3: the learner pops the last group off the list object it is
    given: afterwards the object holds the groups before the last one,
    whether or not the later layers could be built, and nothing else in
    the store has changed.  A construction without [groups] works on the
    list of the class attribute, so after a first construction on the
    freshly loaded class that list has two groups left, after a second
    one it has one, and the second model has one fire group where the
    first has two. *)
Theorem pop_mutates_shared_groups self x metaparameters l gs g s i1 s1 i2 s2 :
  metaparameters !! "groups" = Some (VList l) ->
  heap s !! l = Some (gs ++ [g]) ->
  SqueezeNet.new base SqueezeNet.no_arguments SqueezeNet.loaded = (Ok i1, s1) ->
  SqueezeNet.new base SqueezeNet.no_arguments s1 = (Ok i2, s2) ->
  heap (SqueezeNet.learner base self x metaparameters s).2 = <[l := gs]> (heap s) /\
  heap s1 !! SqueezeNet.groups_ref
  = Some [ [ {[ "n_filters" := 16 ]}; {[ "n_filters" := 16 ]};
             {[ "n_filters" := 32 ]} ];
           [ {[ "n_filters" := 32 ]}; {[ "n_filters" := 48 ]};
             {[ "n_filters" := 48 ]}; {[ "n_filters" := 64 ]} ] ] /\
  heap s2 !! SqueezeNet.groups_ref
  = Some [ [ {[ "n_filters" := 16 ]}; {[ "n_filters" := 16 ]};
             {[ "n_filters" := 32 ]} ] ] /\
  exists m1 m2,
    Composable._model i1 = Some m1 /\ Composable._model i2 = Some m2 /\
    fire_groups (node_layer <$> Keras.layers m1) = 2%nat /\
    fire_groups (node_layer <$> Keras.layers m2) = 1%nat /\
    fire_blocks (node_layer <$> Keras.layers m1) = 8%nat /\
    fire_blocks (node_layer <$> Keras.layers m2) = 4%nat.
Proof.
  intros Hg Hl H1 H2. split; [by eapply learner_heap|].
  unfold SqueezeNet.new in H1, H2. simpl in H1, H2.
  destruct (init_Ok base _ _ _ _ _ _ _ _ _ _ H1)
    as (gs1 & b1 & rest1 & c1 & m1 & Hh1 & Hs1 & _ & _ & _ & _ & _ & Hm1 & _ & Hl1 & _).
  assert (Ht : Some ([ [ {[ "n_filters" := 16 ]}; {[ "n_filters" := 16 ]};
                         {[ "n_filters" := 32 ]} ];
                       [ {[ "n_filters" := 32 ]}; {[ "n_filters" := 48 ]};
                         {[ "n_filters" := 48 ]}; {[ "n_filters" := 64 ]} ] ]
                     ++ [ [ ({[ "n_filters" := 64 ]} : block) ] ])
               = Some (gs1 ++ [b1 :: rest1])) by exact Hh1.
  clear Hh1. injection Ht as Ht.
  change [?g1; ?g2; ?g3] with ([g1; g2] ++ [g3]) in Ht.
  apply app_inj_tail in Ht as [<- _].
  simpl in Hs1.
  destruct (init_Ok base _ _ _ _ _ _ _ _ _ _ H2)
    as (gs2 & b2 & rest2 & c2 & m2 & Hh2 & Hs2 & _ & _ & _ & _ & _ & Hm2 & _ & Hl2 & _).
  simpl in Hh2, Hs2. rewrite Hs1, lookup_insert_eq in Hh2.
  injection Hh2 as Hh2.
  change [?g1; ?g2] with ([g1] ++ [g2]) in Hh2.
  apply app_inj_tail in Hh2 as [<- _].
  split; [by rewrite Hs1, lookup_insert_eq|].
  split; [by rewrite Hs2, lookup_insert_eq|].
  exists m1, m2. do 2 (split; [done|]). rewrite Hl1, Hl2.
  rewrite !fire_groups_model, !fire_blocks_model. done.
Qed.


End Claims.

(** ** The claims on concrete configurations *)

(** C2 as stated fails on a table whose last group has two blocks: the
    table has three blocks, the model has two fire blocks, and the filter
    count 48 of the last block shapes no layer. *)
Lemma last_group_is_one_block :
  exists self s' m,
    SqueezeNet.__init__ Examples.base (Some Examples.caller_ref) (1 # 2)
      [224; 224; 3] 1000 "glorot_uniform" (Some (l2 (1 # 1000))) None
      (Examples.with_table Examples.two_groups) = (Ok self, s') /\
    Composable._model self = Some m /\
    length (concat Examples.two_groups) = 3%nat /\
    fire_blocks (node_layer <$> Keras.layers m) = 2%nat /\
    squeeze_filters (node_layer <$> Keras.layers m) = [16; 32].
Proof.
  destruct (SqueezeNet.__init__ Examples.base (Some Examples.caller_ref) (1 # 2)
              [224; 224; 3] 1000 "glorot_uniform" (Some (l2 (1 # 1000))) None
              (Examples.with_table Examples.two_groups))
    as [[self|e] s'] eqn:H; vm_compute in H; [|discriminate].
  injection H as <- <-. eexists _, _, _.
  split; [reflexivity|]. split; [reflexivity|]. vm_compute. done.
Defined.

(** C2, as amended, on that table. *)
Lemma blocks_consumed_witness :
  exists self s',
    SqueezeNet.__init__ Examples.base (Some Examples.caller_ref) (1 # 2)
      [224; 224; 3] 1000 "glorot_uniform" (Some (l2 (1 # 1000))) None
      (Examples.with_table Examples.two_groups) = (Ok self, s') /\
    exists gs b rest m,
      heap (Examples.with_table Examples.two_groups) !! Examples.caller_ref
      = Some (gs ++ [b :: rest]) /\
      Forall declares_filters gs /\ is_Some (b !! "n_filters") /\
      Composable._model self = Some m /\
      squeeze_filters (node_layer <$> Keras.layers m)
        = (n_filters <$> concat gs) ++ [n_filters b] /\
      fire_blocks (node_layer <$> Keras.layers m) = (length (concat gs) + 1)%nat.
Proof.
  destruct (SqueezeNet.__init__ Examples.base (Some Examples.caller_ref) (1 # 2)
              [224; 224; 3] 1000 "glorot_uniform" (Some (l2 (1 # 1000))) None
              (Examples.with_table Examples.two_groups))
    as [[self|e] s'] eqn:H.
  - exists self, s'. split; [reflexivity|].
    exact (blocks_consumed Examples.base _ _ _ _ _ _ _ _ _ _ H).
  - exfalso. vm_compute in H. discriminate.
Defined.

(** C3 on the freshly loaded class: two constructions in a row. *)
Lemma pop_mutates_shared_groups_witness :
  exists i1 s1 i2 s2,
    SqueezeNet.new Examples.base SqueezeNet.no_arguments SqueezeNet.loaded
    = (Ok i1, s1) /\
    SqueezeNet.new Examples.base SqueezeNet.no_arguments s1 = (Ok i2, s2) /\
    heap (SqueezeNet.learner Examples.base
            (Composable.__init__ VNone VNone VNone) Examples.x
            {[ "groups" := SqueezeNet.groups ]} Examples.after_input).2
    = <[SqueezeNet.groups_ref := removelast SqueezeNet.groups_table]>
        (heap Examples.after_input) /\
    heap s1 !! SqueezeNet.groups_ref
    = Some (removelast SqueezeNet.groups_table) /\
    heap s2 !! SqueezeNet.groups_ref
    = Some (removelast (removelast SqueezeNet.groups_table)) /\
    exists m1 m2,
      Composable._model i1 = Some m1 /\ Composable._model i2 = Some m2 /\
      fire_groups (node_layer <$> Keras.layers m1) = 2%nat /\
      fire_groups (node_layer <$> Keras.layers m2) = 1%nat /\
      fire_blocks (node_layer <$> Keras.layers m1) = 8%nat /\
      fire_blocks (node_layer <$> Keras.layers m2) = 4%nat.
Proof.
  destruct (SqueezeNet.new Examples.base SqueezeNet.no_arguments SqueezeNet.loaded)
    as [[i1|e1] s1] eqn:H1.
  2: { exfalso. vm_compute in H1. discriminate. }
  destruct (SqueezeNet.new Examples.base SqueezeNet.no_arguments s1)
    as [[i2|e2] s2] eqn:H2.
  2: { exfalso. vm_compute in H1. injection H1 as <- <-.
       vm_compute in H2. discriminate. }
  exists i1, s1, i2, s2. split; [reflexivity|]. split; [exact H2|].
  exact (pop_mutates_shared_groups Examples.base
           (Composable.__init__ VNone VNone VNone) Examples.x
           {[ "groups" := SqueezeNet.groups ]} SqueezeNet.groups_ref
           (removelast SqueezeNet.groups_table) [ {[ "n_filters" := 64 ]} ]
           Examples.after_input i1 s1 i2 s2
           eq_refl eq_refl H1 H2).
Defined.

(** C4 on the default configuration. *)
Lemma init_is_composition_witness :
  exists self s',
    SqueezeNet.__init__ Examples.base None (1 # 2) [224; 224; 3] 1000
      "glorot_uniform" (Some (l2 (1 # 1000))) None SqueezeNet.loaded
    = (Ok self, s') /\
    exists inputs x1 x2 outputs self1 s1 s2 s3 m,
      Keras.Input [224; 224; 3] SqueezeNet.loaded = (Ok inputs, s1) /\
      SqueezeNet.stem Examples.base
        (Composable.__init__ (VStr "glorot_uniform") (VReg (l2 (1 # 1000))) VNone)
        inputs {[ "reg" := VReg (l2 (1 # 1000)) ]} s1 = (Ok x1, s2) /\
      SqueezeNet.learner Examples.base
        (Composable.__init__ (VStr "glorot_uniform") (VReg (l2 (1 # 1000))) VNone)
        x1
        (<[ "groups" := SqueezeNet.groups ]>
           (<[ "dropout" := VFloat (1 # 2) ]>
              {[ "reg" := VReg (l2 (1 # 1000)) ]})) s2 = (Ok x2, s3) /\
      SqueezeNet.classifier Examples.base
        (Composable.__init__ (VStr "glorot_uniform") (VReg (l2 (1 # 1000))) VNone)
        x2 (VInt 1000) {[ "reg" := VReg (l2 (1 # 1000)) ]} s3
      = (Ok (outputs, self1), s') /\
      Composable._model self = Some m /\
      Keras.inputs m = inputs /\ Keras.outputs m = outputs /\
      Keras.layers m = drop (length (graph SqueezeNet.loaded)) (graph s').
Proof.
  destruct (SqueezeNet.__init__ Examples.base None (1 # 2) [224; 224; 3] 1000
              "glorot_uniform" (Some (l2 (1 # 1000))) None SqueezeNet.loaded)
    as [[self|e] s'] eqn:H.
  - exists self, s'. split; [reflexivity|].
    exact (init_is_composition Examples.base _ _ _ _ _ _ _ _ _ _ H).
  - exfalso. vm_compute in H. discriminate.
Defined.

(** C5 on a block of 16 filters. *)
Lemma fire_block_structure_witness :
  exists t s',
    ({[ "n_filters" := VInt 16 ]} : gmap string value) !! "n_filters"
    = Some (VInt 16) /\
    SqueezeNet.fire_block Examples.base Examples.x VNone
      {[ "n_filters" := VInt 16 ]} Examples.after_input = (Ok t, s') /\
    exists h w ch i r c,
      tensor_shape Examples.x = [h; w; ch] /\
      heap s' = heap Examples.after_input /\
      graph s' = graph Examples.after_input ++
        fire_nodes (length (graph Examples.after_input))
          (node_index Examples.x) h w 16 i r c /\
      t = Tensor (length (graph Examples.after_input) + 5) [h; w; 16 * 4 + 16 * 4].
Proof.
  destruct (SqueezeNet.fire_block Examples.base Examples.x VNone
              {[ "n_filters" := VInt 16 ]} Examples.after_input)
    as [[t|e] s'] eqn:H.
  - exists t, s'. split; [reflexivity|]. split; [reflexivity|].
    exact (fire_block_structure Examples.base Examples.x VNone
             {[ "n_filters" := VInt 16 ]} 16 Examples.after_input t s'
             eq_refl H).
  - exfalso. vm_compute in H. discriminate.
Defined.





(** C8 on a block of 16 filters without ['reg']. *)
Lemma fire_block_default_reg_witness :
  ({[ "n_filters" := VInt 16 ]} : gmap string value) !! "reg" = None /\
  SqueezeNet.reg Examples.base = Composable.reg Examples.base /\
  SqueezeNet.fire_block Examples.base Examples.x VNone
    {[ "n_filters" := VInt 16 ]} Examples.after_input
  = (Ok (Tensor (length (graph Examples.after_input) + 5) [55; 55; 16 * 4 + 16 * 4]),
     State (heap Examples.after_input)
       (graph Examples.after_input ++
        fire_nodes (length (graph Examples.after_input)) (node_index Examples.x)
          55 55 16 (Some "glorot_uniform") None None)).
Proof.
  split; [reflexivity|].
  apply (fire_block_default_reg Examples.base Examples.x VNone
           {[ "n_filters" := VInt 16 ]} 16 55 55 96 (Some "glorot_uniform")
           None None Examples.after_input);
    first [reflexivity | lia].
Defined.

(** C9 on the default configuration. *)
Lemma layers_in_catalog_witness :
  exists self s',
    SqueezeNet.__init__ Examples.base None (1 # 2) [224; 224; 3] 1000
      "glorot_uniform" (Some (l2 (1 # 1000))) None SqueezeNet.loaded
    = (Ok self, s') /\
    exists m,
      Composable._model self = Some m /\
      forall nd, nd ∈ Keras.layers m ->
        in_catalog (node_layer nd) = true /\
        Keras.layer_name (node_layer nd) ∈
          ["InputLayer"; "Conv2D"; "ReLU"; "MaxPooling2D"; "Concatenate";
           "Dropout"; "GlobalAveragePooling2D"; "Activation"].
Proof.
  destruct (SqueezeNet.__init__ Examples.base None (1 # 2) [224; 224; 3] 1000
              "glorot_uniform" (Some (l2 (1 # 1000))) None SqueezeNet.loaded)
    as [[self|e] s'] eqn:H.
  - exists self, s'. split; [reflexivity|].
    exact (layers_in_catalog Examples.base _ _ _ _ _ _ _ _ _ _ H).
  - exfalso. vm_compute in H. discriminate.
Defined.

(** C10 on a 224 x 224 image with three channels. *)
Lemma stem_reduces_resolution_witness :
  5 <= 224 /\
  exists h1 w1 h2 w2,
    0 < h2 < 224 /\ 0 < w2 < 224 /\
    SqueezeNet.stem Examples.base
      (Composable.__init__ (VStr "glorot_uniform") VNone VNone)
      (Tensor 0 [224; 224; 3]) {[ "reg" := VReg (l2 (1 # 1000)) ]}
      (Keras.Input [224; 224; 3] SqueezeNet.loaded).2
    = (Ok (Tensor (1 + 2) [h2; w2; 96]),
       State (heap SqueezeNet.loaded)
         ([ Node (InputLayer [224; 224; 3]) [] [224; 224; 3] ] ++
          [ Node (LConv2D 96 (7, 7) (2, 2) same None (Some "glorot_uniform")
                    (Some (l2 (1 # 1000)))) [0%nat] [h1; w1; 96];
            Node (LReLU None) [1%nat] [h1; w1; 96];
            Node (LMaxPooling2D (3, 3) (2, 2)) [2%nat] [h2; w2; 96] ])).
Proof.
  split; [lia|].
  apply (stem_reduces_resolution Examples.base
           (Composable.__init__ (VStr "glorot_uniform") VNone VNone)
           (Tensor 0 [224; 224; 3]) {[ "reg" := VReg (l2 (1 # 1000)) ]}
           (VReg (l2 (1 # 1000))) (Some "glorot_uniform") (Some (l2 (1 # 1000)))
           None 224 224 3 (Keras.Input [224; 224; 3] SqueezeNet.loaded).2);
    first [reflexivity | lia].
Defined.


(** ** Frame conditions of the methods *)

Lemma grows_only_ret {A} (a : A) : grows_only (ret a).
Proof. intros s. done. Qed.

Lemma grows_only_bind {A B} (m : M A) (k : A -> M B) :
  grows_only m -> (forall a, grows_only (k a)) -> grows_only (bind m k).
Proof.
  intros Hm Hk s. unfold bind. specialize (Hm s).
  destruct (m s) as [[a|e] s1]; simpl in *; [|done].
  etrans; [exact Hm | apply Hk].
Qed.

Lemma grows_only_getitem d k : grows_only (Python.getitem d k).
Proof. intros s. unfold Python.getitem. by destruct (d !! k). Qed.

Lemma grows_only_first {A} (l : list A) : grows_only (Python.first l).
Proof. intros s. by destruct l. Qed.

Lemma grows_only_blocks_of v : grows_only (Python.blocks_of v).
Proof. intros s. by destruct v. Qed.

Lemma grows_only_mul v k : grows_only (Python.mul v k).
Proof. intros s. by destruct v. Qed.

Lemma grows_only_elements v : grows_only (Python.elements v).
Proof.
  intros s. destruct v; try done. simpl. by destruct (heap s !! l).
Qed.

Lemma grows_only_pop v : grows_only (Python.pop v).
Proof.
  intros s. destruct v; try done. simpl.
  destruct (heap s !! l) as [gs|]; [|done]. by destruct (last gs).
Qed.

Lemma grows_only_call rl ins : grows_only (Keras.call rl ins).
Proof.
  intros s. unfold Keras.call. destruct rl as [l|e]; [|done].
  destruct (Keras.compute_output_shape l _); [|done].
  simpl. by apply prefix_app_r.
Qed.

Lemma grows_only_for_each {A B} (f : A -> B -> M A) l :
  (forall x b, grows_only (f x b)) -> forall x, grows_only (for_each l f x).
Proof.
  intros Hf. induction l as [|b l IH]; intros x; simpl.
  - apply grows_only_ret.
  - apply grows_only_bind; [apply Hf | apply IH].
Qed.

Lemma grows_only_call_kw {A} (f : tensor -> value -> gmap string value -> M A) x ds :
  (forall iw mp, grows_only (f x iw mp)) -> grows_only (Python.call_kw f x ds).
Proof.
  intros Hf s. unfold Python.call_kw.
  destruct (Python.merge_all ds); [|done]. case_bool_decide; [done|]. apply Hf.
Qed.

Lemma grows_only_Input input_shape : grows_only (Keras.Input input_shape).
Proof.
  intros s. unfold Keras.Input. destruct (forallb _ _); [|done].
  simpl. by apply prefix_app_r.
Qed.

Lemma grows_only_Model i o : grows_only (Keras.Model i o).
Proof. intros s. done. Qed.

Section Frames.

Variable base : Composable.attributes.

Lemma grows_only_fire_block x iw mp :
  grows_only (SqueezeNet.fire_block base x iw mp).
Proof.
  unfold SqueezeNet.fire_block, Composable.ReLU.
  repeat (apply grows_only_bind; [|intros ?]);
    auto using grows_only_getitem, grows_only_call, grows_only_mul.
Qed.

Lemma grows_only_group x iw mp : grows_only (SqueezeNet.group base x iw mp).
Proof.
  unfold SqueezeNet.group.
  repeat (apply grows_only_bind; [|intros ?]);
    auto using grows_only_getitem, grows_only_call, grows_only_blocks_of.
  apply grows_only_for_each. intros ? ?.
  apply grows_only_call_kw. intros ? ?. apply grows_only_fire_block.
Qed.

Lemma grows_only_learner self x mp :
  grows_only (SqueezeNet.learner base self x mp).
Proof.
  unfold SqueezeNet.learner.
  repeat (apply grows_only_bind; [|intros ?]);
    auto using grows_only_getitem, grows_only_pop, grows_only_elements,
      grows_only_first, grows_only_call.
  - apply grows_only_for_each. intros ? ?.
    apply grows_only_call_kw. intros ? ?. apply grows_only_group.
  - apply grows_only_call_kw. intros ? ?. apply grows_only_fire_block.
Qed.

Lemma grows_only_stem self x mp : grows_only (SqueezeNet.stem base self x mp).
Proof.
  unfold SqueezeNet.stem, Composable.ReLU.
  repeat (apply grows_only_bind; [|intros ?]);
    auto using grows_only_getitem, grows_only_call.
Qed.

Lemma grows_only_classifier self x v mp :
  grows_only (SqueezeNet.classifier base self x v mp).
Proof.
  unfold SqueezeNet.classifier, Composable.ReLU.
  repeat (apply grows_only_bind; [|intros ?]);
    auto using grows_only_getitem, grows_only_call, grows_only_ret.
Qed.

Lemma keeps_heap_stem self x mp : keeps_heap (SqueezeNet.stem base self x mp).
Proof.
  unfold SqueezeNet.stem, Composable.ReLU.
  repeat (apply keeps_heap_bind; [|intros ?]);
    auto using keeps_heap_getitem, keeps_heap_call.
Qed.

Lemma keeps_heap_classifier self x v mp :
  keeps_heap (SqueezeNet.classifier base self x v mp).
Proof.
  unfold SqueezeNet.classifier, Composable.ReLU.
  repeat (apply keeps_heap_bind; [|intros ?]);
    auto using keeps_heap_getitem, keeps_heap_call, keeps_heap_ret.
Qed.

(** The learner in every outcome: the store is as before, or the list it
    was given has lost its last group and nothing else has changed. *)
Lemma learner_heap_cases self x mp s :
  heap (SqueezeNet.learner base self x mp s).2 = heap s \/
  exists l gs g,
    mp !! "groups" = Some (VList l) /\ heap s !! l = Some (gs ++ [g]) /\
    heap (SqueezeNet.learner base self x mp s).2 = <[l := gs]> (heap s).
Proof.
  destruct (mp !! "groups") as [v|] eqn:Hg.
  2: { left. unfold SqueezeNet.learner, bind, Python.getitem. by rewrite Hg. }
  destruct v as [| | | | |l|];
    try (left; unfold SqueezeNet.learner, bind, Python.getitem;
         rewrite Hg; reflexivity).
  destruct (heap s !! l) as [gs0|] eqn:Hl.
  2: { left. unfold SqueezeNet.learner, bind, Python.getitem, Python.pop.
       rewrite Hg. simpl. by rewrite Hl. }
  destruct (last gs0) as [g|] eqn:Hlast.
  - apply last_Some in Hlast as [gs ->]. right. exists l, gs, g.
    split; [done|]. split; [done|]. by eapply learner_heap.
  - left. unfold SqueezeNet.learner, bind, Python.getitem, Python.pop.
    rewrite Hg. simpl. by rewrite Hl, Hlast.
Qed.

(** X1: the stem, a fire block, a fire group and the classifier never
    change the store of list objects, whether they return or raise. *)
Theorem methods_keep_store self x v init_weights metaparameters :
  keeps_heap (SqueezeNet.stem base self x metaparameters) /\
  keeps_heap (SqueezeNet.fire_block base x init_weights metaparameters) /\
  keeps_heap (SqueezeNet.group base x init_weights metaparameters) /\
  keeps_heap (SqueezeNet.classifier base self x v metaparameters).
Proof.
  split; [apply keeps_heap_stem|]. split; [apply keeps_heap_fire_block|].
  split; [apply keeps_heap_group | apply keeps_heap_classifier].
Qed.

(** X2: in every outcome of a construction, also a failed one, the store
    is either unchanged or differs only in that the list of groups the
    constructor worked on has lost its last group. *)
Theorem constructor_store groups dropout input_shape n_classes init_weights
    reg relu s :
  let s' := (SqueezeNet.__init__ base groups dropout input_shape n_classes
               init_weights reg relu s).2 in
  heap s' = heap s \/
  exists gs g,
    heap s !! default SqueezeNet.groups_ref groups = Some (gs ++ [g]) /\
    heap s' = <[default SqueezeNet.groups_ref groups := gs]> (heap s).
Proof.
  intros s'. subst s'.
  destruct (SqueezeNet.__init__ base groups dropout input_shape n_classes
              init_weights reg relu s) as [[self|e] s'] eqn:H; simpl.
  { destruct (init_Ok base _ _ _ _ _ _ _ _ _ _ H)
      as (gs & b & rest & c & m & Hl & Hh & _).
    right. by exists gs, (b :: rest). }
  unfold SqueezeNet.__init__ in H.
  apply bind_Raise in H as [H | (inputs & s1 & H1 & H)].
  { left. unfold Keras.Input in H. destruct (forallb _ _); [discriminate|].
    by injection H as _ <-. }
  apply Input_Ok in H1 as (_ & _ & ->).
  match type of H with bind ?m _ ?s1 = _ =>
    pose proof (keeps_heap_stem
                  (Composable.__init__ (VStr init_weights) (SqueezeNet.of_reg reg)
                     (SqueezeNet.of_relu relu))
                  inputs {[ "reg" := SqueezeNet.of_reg reg ]} s1) as K2 end.
  apply bind_Raise in H as [H | (x1 & s2 & H2 & H)].
  { left. rewrite H in K2. exact K2. }
  rewrite H2 in K2. simpl in K2.
  assert (Hcases : heap s' = heap s2 \/
            exists gs g,
              heap s2 !! default SqueezeNet.groups_ref groups = Some (gs ++ [g]) /\
              heap s' = <[default SqueezeNet.groups_ref groups := gs]> (heap s2)).
  { assert (Hs3 : exists s3,
              heap s' = heap s3 /\
              s3 = (SqueezeNet.learner base
                      (Composable.__init__ (VStr init_weights)
                         (SqueezeNet.of_reg reg) (SqueezeNet.of_relu relu))
                      x1
                      (<[ "groups" := match groups with
                                      | Some l => VList l
                                      | None => SqueezeNet.groups
                                      end ]>
                         (<[ "dropout" := VFloat dropout ]>
                            {[ "reg" := SqueezeNet.of_reg reg ]})) s2).2).
    { apply bind_Raise in H as [H | (x2 & s3 & H3 & H)].
      - exists s'. by rewrite H.
      - exists s3. rewrite H3. split; [|done].
        apply bind_Raise in H as [H | (r4 & s4 & _ & H)].
        + match type of H with SqueezeNet.classifier _ ?self ?x ?v ?mp _ = _ =>
            pose proof (keeps_heap_classifier self x v mp s3) as K4 end.
          by rewrite H in K4.
        + apply bind_Raise in H as [H | (m & s5 & _ & H)]; discriminate. }
    destruct Hs3 as (s3 & -> & ->).
    match goal with |- context [SqueezeNet.learner _ ?self ?x ?mp s2] =>
      destruct (learner_heap_cases self x mp s2)
        as [K3 | (l & gs & g & Hg & Hl & K3)] end; [by left|].
    right. exists gs, g.
    assert (l = default SqueezeNet.groups_ref groups) as ->.
    { rewrite lookup_insert_eq in Hg. by destruct groups; injection Hg as <-. }
    done. }
  rewrite K2 in Hcases. exact Hcases.
Qed.


(** X3: a construction only appends to the graph: in every outcome, also
    a failed one, the nodes that were there before are still there,
    unchanged and at the same indices. *)
Theorem constructor_appends groups dropout input_shape n_classes init_weights
    reg relu :
  grows_only (SqueezeNet.__init__ base groups dropout input_shape n_classes
                init_weights reg relu).
Proof.
  unfold SqueezeNet.__init__.
  apply grows_only_bind; [apply grows_only_Input | intros ?].
  apply grows_only_bind; [apply grows_only_stem | intros ?].
  apply grows_only_bind; [apply grows_only_learner | intros ?].
  apply grows_only_bind; [apply grows_only_classifier | intros ?].
  apply grows_only_bind; [apply grows_only_Model | intros ?].
  apply grows_only_ret.
Qed.

End Frames.

(** ** Edge cases of the table and of the keyword arguments *)

Lemma merge_all_raises ds e : Python.merge_all ds = Raise e -> e = TypeError.
Proof.
  revert e. induction ds as [|d ds IH]; intros e H; simpl in H; [discriminate|].
  destruct (Python.merge_all ds) as [kw'|e1].
  - unfold Python.merge in H. case_bool_decide; [discriminate|].
    by injection H as <-.
  - injection H as <-. by apply IH.
Qed.

Lemma call_kw_collision {A} (f : tensor -> value -> gmap string value -> M A)
    x ds s :
  (forall kw, Python.merge_all ds = Ok kw -> is_Some (kw !! "x")) ->
  Python.call_kw f x ds s = (Raise TypeError, s).
Proof.
  intros Hkw. unfold Python.call_kw.
  destruct (Python.merge_all ds) as [kw|e] eqn:H.
  - rewrite bool_decide_eq_true_2; [done|]. apply elem_of_dom. by apply Hkw.
  - by rewrite (merge_all_raises _ _ H).
Qed.

Lemma Conv2D_raises_framework v ks st pad act iw rg e :
  Keras.Conv2D v ks st pad act iw rg = Raise e -> e = FrameworkError "Conv2D".
Proof.
  unfold Keras.Conv2D.
  destruct v, (Keras.get_padding pad), (Keras.get_activation act),
    (Keras.get_initializer iw), (Keras.get_regularizer rg);
    try (by intros [= <-]).
  destruct (_ && _); [discriminate | by intros [= <-]].
Qed.

Lemma ReLU_raises_framework v e :
  Keras.ReLU v = Raise e -> e = FrameworkError "ReLU".
Proof.
  unfold Keras.ReLU. destruct v; try (by intros [= <-]); try discriminate.
  - destruct (0 <=? z); [discriminate | by intros [= <-]].
  - destruct (Qle_bool 0 q); [discriminate | by intros [= <-]].
Qed.

Lemma call_raises_framework rl ins s e s' :
  (forall e, rl = Raise e -> exists name, e = FrameworkError name) ->
  Keras.call rl ins s = (Raise e, s') -> exists name, e = FrameworkError name.
Proof.
  intros Hrl. unfold Keras.call. destruct rl as [l|e0].
  - destruct (Keras.compute_output_shape l _); [discriminate|].
    intros [= <- _]. eauto.
  - intros [= <- _]. by apply Hrl.
Qed.

Section Edges.

Variable base : Composable.attributes.

(** X4: a fire block raises a [KeyError] exactly when its keyword
    arguments have no ['n_filters'], and then it has changed nothing;
    every other exception of a fire block is an error of the framework. *)
Theorem fire_block_errors x init_weights metaparameters s :
  (metaparameters !! "n_filters" = None ->
   SqueezeNet.fire_block base x init_weights metaparameters s
   = (Raise (KeyError "n_filters"), s)) /\
  (forall e s',
     SqueezeNet.fire_block base x init_weights metaparameters s = (Raise e, s') ->
     (e = KeyError "n_filters" /\ metaparameters !! "n_filters" = None /\ s' = s) \/
     (is_Some (metaparameters !! "n_filters") /\
      exists layer_name, e = FrameworkError layer_name)).
Proof.
  split.
  { intros Hn. unfold SqueezeNet.fire_block, bind, Python.getitem.
    by rewrite Hn. }
  intros e s' H. unfold SqueezeNet.fire_block in H.
  apply bind_Raise in H as [H | (v & s1 & Hv & H)].
  { left. unfold Python.getitem in H.
    destruct (metaparameters !! "n_filters"); [discriminate|].
    by injection H as <- <-. }
  apply getitem_Ok in Hv as [Hv <-]. right. split; [eauto|].
  apply bind_Raise in H as [H | (squeeze & s2 & Hsq & H)].
  { eapply call_raises_framework; [|exact H].
    intros e0 He0. apply Conv2D_raises_framework in He0. eauto. }
  apply conv_call_Ok in Hsq as (n & _ & _ & _ & _ & _ & _ & -> & _).
  simpl Python.mul in H.
  repeat match type of H with
  | bind (ret _) _ _ = _ => unfold bind at 1, ret at 1 in H
  | bind _ _ _ = (Raise _, _) =>
      let a := fresh "a" in let s0 := fresh "s" in
      apply bind_Raise in H as [H | (a & s0 & _ & H)]
  end;
  (eapply call_raises_framework; [|exact H]); intros e0 He0;
    first [ apply Conv2D_raises_framework in He0
          | apply ReLU_raises_framework in He0
          | discriminate ]; eauto.
Qed.

(** X5: a block whose dictionary has a key that the call also passes as a
    keyword makes the call of the fire block a [TypeError], before anything
    is built.  In a group the keywords are [init_weights], the positional
    [x] and the keys of the group's keyword arguments; in the learner's
    last call they are [x] and the keys of the learner's keyword
    arguments. *)
Theorem block_key_collision x init_weights (b : block) metaparameters k s :
  is_Some (b !! k) ->
  (k = "x" \/ is_Some (metaparameters !! k) ->
   Python.call_kw (SqueezeNet.fire_block base) x
     [ Python.unpack b; metaparameters ] s = (Raise TypeError, s)) /\
  (k = "init_weights" \/ k = "x" \/ is_Some (metaparameters !! k) ->
   Python.call_kw (SqueezeNet.fire_block base) x
     [ {[ "init_weights" := init_weights ]}; Python.unpack b; metaparameters ] s
   = (Raise TypeError, s)).
Proof.
  intros [z Hb].
  assert (Hu : Python.unpack b !! k = Some (VInt z))
    by (by rewrite unpack_lookup, Hb).
  split.
  - intros Hk. apply call_kw_collision. intros kw Hkw.
    apply merge_all_pair in Hkw as [Hd ->].
    destruct Hk as [-> | [v Hv]].
    + rewrite lookup_union_l'; eauto.
    + by rewrite (disjoint_lookup _ _ _ _ Hd Hv) in Hu.
  - intros Hk. apply call_kw_collision. intros kw Hkw.
    apply merge_all_cons in Hkw as (kw' & Hkw' & Hd & ->).
    apply merge_all_pair in Hkw' as [Hd' ->].
    destruct Hk as [-> | [-> | [v Hv]]].
    + exfalso.
      assert (Hin : (Python.unpack b ∪ metaparameters) !! "init_weights"
                    = Some (VInt z)) by (rewrite lookup_union_l'; eauto).
      pose proof (disjoint_lookup _ _ _ _ Hd Hin) as Hnone.
      by rewrite lookup_singleton_eq in Hnone.
    + rewrite lookup_union_r by (by rewrite lookup_singleton_ne).
      rewrite lookup_union_l'; eauto.
    + by rewrite (disjoint_lookup _ _ _ _ Hd' Hv) in Hu.
Qed.

Lemma learner_on_empty self x metaparameters l s :
  metaparameters !! "groups" = Some (VList l) ->
  heap s !! l = Some [] ->
  SqueezeNet.learner base self x metaparameters s = (Raise IndexError, s).
Proof.
  intros Hg Hl. unfold SqueezeNet.learner.
  erewrite bind_run by (by apply getitem_run).
  unfold bind, Python.pop. by rewrite Hl.
Qed.

Lemma stem_run self inputs metaparameters rv i r c h w ch s :
  metaparameters !! "reg" = Some rv ->
  Keras.get_regularizer rv = Some r ->
  Keras.get_initializer (Composable.self_init_weights self) = Some i ->
  Keras.ReLU (Composable.relu base) = Ok (LReLU c) ->
  tensor_shape inputs = [h; w; ch] ->
  5 <= h -> 5 <= w ->
  SqueezeNet.stem base self inputs metaparameters s
  = (Ok (Tensor (length (graph s) + 2)
           [pooled ((h + 2 - 1) / 2); pooled ((w + 2 - 1) / 2); 96]),
     State (heap s)
       (graph s ++
        [ Node (LConv2D 96 (7, 7) (2, 2) same None i r) [node_index inputs]
            [(h + 2 - 1) / 2; (w + 2 - 1) / 2; 96];
          Node (LReLU c) [length (graph s)]
            [(h + 2 - 1) / 2; (w + 2 - 1) / 2; 96];
          Node (LMaxPooling2D (3, 3) (2, 2)) [S (length (graph s))]
            [pooled ((h + 2 - 1) / 2); pooled ((w + 2 - 1) / 2); 96] ])).
Proof.
  intros Hreg Hr Hi Hc Hx Hh Hw. unfold SqueezeNet.stem, pooled.
  erewrite bind_run by (by apply getitem_run).
  erewrite bind_run by (eapply conv_call_run; eauto; done).
  erewrite bind_run by (by apply Composable_ReLU_run).
  erewrite pool_call_run; [|done|done|reflexivity|..].
  - simpl. rewrite !length_app, <- !app_assoc. simpl.
    rewrite <- !Nat.add_assoc. simpl. repeat f_equal; lia.
  - simpl. Z.div_mod_to_equations; lia.
  - simpl. Z.div_mod_to_equations; lia.
Qed.

(** X6: a construction on an empty list of groups.  On an image of at
    least 5 by 5 and with hyperparameters the framework accepts, the
    input placeholder and the stem are built first; then the [pop] of the
    learner raises [IndexError].  The four nodes stay in the graph and
    the list stays empty. *)
Theorem empty_table_construction groups dropout h w ch n_classes init_weights
    reg relu c s :
  heap s !! default SqueezeNet.groups_ref groups = Some [] ->
  5 <= h -> 5 <= w -> 0 < ch ->
  Keras.known Keras.known_initializers init_weights = true ->
  Keras.ReLU (Composable.relu base) = Ok (LReLU c) ->
  exists nodes,
    SqueezeNet.__init__ base groups dropout [h; w; ch] n_classes init_weights
      reg relu s
    = (Raise IndexError, State (heap s) (graph s ++ nodes)) /\
    node_layer <$> nodes
    = InputLayer [h; w; ch] :: stem_layers (Some init_weights) reg c.
Proof.
  intros Hl Hh Hw Hch Hk Hc. unfold SqueezeNet.__init__.
  assert (Hin : Keras.Input [h; w; ch] s
                = (Ok (Tensor (length (graph s)) [h; w; ch]),
                   State (heap s)
                     (graph s ++ [Node (InputLayer [h; w; ch]) [] [h; w; ch]]))).
  { unfold Keras.Input.
    replace (forallb (Z.ltb 0) [h; w; ch]) with true; [done|].
    symmetry. apply forallb_forall. intros d Hd. apply Z.ltb_lt.
    simpl in Hd. destruct Hd as [<-|[<-|[<-|[]]]]; lia. }
  erewrite bind_run by exact Hin.
  erewrite bind_run.
  2: { apply stem_run with (rv := SqueezeNet.of_reg reg) (ch := ch);
         [ apply lookup_singleton_eq | apply get_regularizer_of_reg
         | cbn [Composable.self_init_weights Composable.__init__
                Keras.get_initializer]; rewrite Hk; reflexivity
         | exact Hc | reflexivity | exact Hh | exact Hw ]. }
  unfold bind at 1.
  erewrite (learner_on_empty _ _ _ (default SqueezeNet.groups_ref groups));
    [| by destruct groups | exact Hl].
  simpl. eexists. split.
  - rewrite <- app_assoc. reflexivity.
  - done.
Qed.

(** X7: when the last group of the list is empty, the learner cannot
    return: it pops the empty group, builds the groups before it, and then
    [last[0]] raises.  The list has lost its last group all the same; and
    when the groups before it could be built, the exception is the
    [IndexError], raised after their nodes have been added. *)
Theorem learner_empty_last_group self x metaparameters l gs s :
  metaparameters !! "groups" = Some (VList l) ->
  heap s !! l = Some (gs ++ [[]]) ->
  exists e s',
    SqueezeNet.learner base self x metaparameters s = (Raise e, s') /\
    heap s' = <[l := gs]> (heap s) /\
    (forall x1 s1,
       for_each gs
         (fun x g =>
            Python.call_kw (SqueezeNet.group base) x
              [ {[ "blocks" := VBlocks g ]}; metaparameters ]) x
         (State (<[l := gs]> (heap s)) (graph s)) = (Ok x1, s1) ->
       e = IndexError /\ s' = s1).
Proof.
  intros Hg Hl.
  pose proof (learner_heap base self x metaparameters l gs [] s Hg Hl) as Hh.
  unfold SqueezeNet.learner in *.
  erewrite bind_run in * by (by apply getitem_run).
  assert (Hpop : Python.pop (VList l) s
                 = (Ok [], State (<[l := gs]> (heap s)) (graph s))).
  { unfold Python.pop. rewrite Hl, last_snoc, removelast_last. done. }
  erewrite bind_run in * by exact Hpop.
  erewrite bind_run in *
    by (unfold Python.elements; simpl; by rewrite lookup_insert_eq).
  unfold bind at 1 in Hh. unfold bind at 1.
  destruct (for_each gs _ x _) as [[x1|e] s1] eqn:Hloop.
  - unfold bind at 1 in Hh. unfold bind at 1. simpl in *.
    exists IndexError, s1. split; [done|]. split; [done|].
    by intros ? ? [= <- <-].
  - simpl in *. exists e, s1. split; [done|]. split; [done|]. discriminate.
Qed.

(** X8: the dropout is the last thing the learner adds.  When the learner
    returns, the last node of the graph is a dropout on the output of the
    last fire block; its rate is the keyword ['dropout'] or, without that
    keyword, the class default 0.5; and its tensor is the result. *)
Theorem learner_ends_in_dropout self x metaparameters s t s' :
  SqueezeNet.learner base self x metaparameters s = (Ok t, s') ->
  exists rate k,
    Keras.Dropout
      match metaparameters !! "dropout" with
      | Some d => d
      | None => VFloat (1 # 2)
      end = Ok (LDropout rate) /\
    last (graph s') = Some (Node (LDropout rate) [k] (tensor_shape t)) /\
    node_layer <$> graph s' !! k = Some LConcatenate /\
    S k = node_index t /\ S (node_index t) = length (graph s').
Proof.
  intros H. unfold SqueezeNet.learner in H.
  step H as v s0 H0. step H as lst s1 H1. step H as gs s2 H2.
  step H as x1 s3 H3. step H as b s4 H4. apply first_Ok in H4 as (rest & -> & ->).
  step H as x2 s5 H5.
  apply call_kw_Ok in H5 as (kw & _ & _ & H5).
  destruct (delete "init_weights" kw !! "n_filters") as [nv|] eqn:Hnf.
  2: { unfold SqueezeNet.fire_block in H5. step H5 as nv s6 H6.
       apply getitem_Ok in H6 as [H6 _]. congruence. }
  assert (exists n, nv = VInt n) as [n ->].
  { unfold SqueezeNet.fire_block in H5. step H5 as nv' s6 H6.
    apply getitem_Ok in H6 as [H6 <-]. rewrite Hnf in H6. injection H6 as <-.
    step H5 as sq s7 H7.
    apply conv_call_Ok in H7 as (n & _ & _ & _ & _ & _ & _ & -> & _). eauto. }
  destruct (fire_block_Ok base _ _ _ _ _ _ _ Hnf H5)
    as (h & w & ch & i & r & c & _ & _ & _ & _ & _ & Hg5 & ->).
  apply call_Ok in H as (l & Hl & Hsh & Hi & ->).
  assert (exists rate, l = LDropout rate) as [rate ->].
  { unfold Keras.Dropout in Hl.
    destruct (match metaparameters !! "dropout" with
              | Some d => d
              | None => SqueezeNet.dropout
              end); try discriminate;
      destruct (_ && _); try discriminate; injection Hl as <-; eauto. }
  exists rate, (length (graph s3) + 5)%nat. split; [exact Hl|].
  simpl in *. injection Hsh as Hsh. split; [by rewrite last_snoc|].
  rewrite Hi, Hg5, !length_app. simpl. split; [|lia].
  rewrite lookup_app_l by (rewrite length_app; simpl; lia).
  rewrite lookup_app_r by lia.
  replace (length (graph s3) + 5 - length (graph s3))%nat with 5%nat by lia.
  done.
Qed.

End Edges.

(** ** The architecture as a whole *)

Lemma length_fires i r c bs :
  length (flat_map (fun b => fire_layers (n_filters b) i r c) bs)
  = (6 * length bs)%nat.
Proof.
  induction bs as [|b bs IH]; [done|]. cbn [flat_map].
  rewrite length_app, IH. simpl. lia.
Qed.

Lemma length_groups i r c gs :
  length (flat_map (group_layers i r c) gs)
  = (6 * length (concat gs) + length gs)%nat.
Proof.
  induction gs as [|g gs IH]; [done|]. cbn [flat_map concat].
  unfold group_layers at 1.
  rewrite !length_app, length_fires, IH. simpl. lia.
Qed.

Lemma length_model input_shape gs b rate n iw r c :
  length (model_layers input_shape gs b rate n iw r c)
  = (15 + 6 * length (concat gs) + length gs)%nat.
Proof.
  unfold model_layers, learner_layers. simpl.
  rewrite !length_app, length_groups. simpl. lia.
Qed.

Lemma conv_initializers_app l1 l2 :
  conv_initializers (l1 ++ l2) = conv_initializers l1 ++ conv_initializers l2.
Proof. apply omap_app. Qed.

Lemma conv_initializers_fires i r c bs :
  conv_initializers (flat_map (fun b => fire_layers (n_filters b) i r c) bs)
  = replicate (3 * length bs) i.
Proof.
  induction bs as [|b bs IH]; [done|]. cbn [flat_map].
  rewrite conv_initializers_app, IH.
  replace (3 * length (b :: bs))%nat with (3 + 3 * length bs)%nat by (simpl; lia).
  done.
Qed.

Lemma conv_initializers_groups i r c gs :
  conv_initializers (flat_map (group_layers i r c) gs)
  = replicate (3 * length (concat gs)) i.
Proof.
  induction gs as [|g gs IH]; [done|]. cbn [flat_map concat].
  unfold group_layers at 1.
  rewrite !conv_initializers_app, conv_initializers_fires, IH, length_app.
  change (conv_initializers [LMaxPooling2D (3, 3) (2, 2)]) with (@nil (option string)).
  rewrite app_nil_r, <- replicate_add. f_equal. lia.
Qed.

Lemma conv_regularizers_app l1 l2 :
  conv_regularizers (l1 ++ l2) = conv_regularizers l1 ++ conv_regularizers l2.
Proof. apply omap_app. Qed.

Lemma conv_regularizers_fires i r c bs :
  Forall (eq r)
    (conv_regularizers (flat_map (fun b => fire_layers (n_filters b) i r c) bs)).
Proof.
  induction bs as [|b bs IH]; [constructor|]. cbn [flat_map].
  rewrite conv_regularizers_app. apply Forall_app. split; [|done].
  repeat constructor.
Qed.

Lemma conv_regularizers_groups i r c gs :
  Forall (eq r) (conv_regularizers (flat_map (group_layers i r c) gs)).
Proof.
  induction gs as [|g gs IH]; [constructor|]. cbn [flat_map].
  unfold group_layers at 1. rewrite !conv_regularizers_app.
  repeat (apply Forall_app; split); auto using conv_regularizers_fires.
Qed.

Section Architecture.

Variable base : Composable.attributes.

(** X9: the layers of a constructed model, in creation order, are read
    off the configuration: the input placeholder; the stem; for every
    group but the last its fire blocks and a max pooling; the fire block
    of the first block of the last group; the dropout; the classifier.
    With [k] groups before the last one and [n] blocks in them, these are
    [15 + 6 n + k] nodes, and they are all the construction has added. *)
Theorem constructed_layers groups dropout input_shape n_classes init_weights
    reg relu s self s' :
  SqueezeNet.__init__ base groups dropout input_shape n_classes init_weights
    reg relu s = (Ok self, s') ->
  exists gs b rest c m,
    heap s !! default SqueezeNet.groups_ref groups = Some (gs ++ [b :: rest]) /\
    Keras.ReLU (Composable.relu base) = Ok (LReLU c) /\
    Composable._model self = Some m /\
    graph s' = graph s ++ Keras.layers m /\
    node_layer <$> Keras.layers m
    = InputLayer input_shape
      :: stem_layers (Some init_weights) reg c
      ++ flat_map (group_layers (Some "glorot_uniform") reg c) gs
      ++ fire_layers (n_filters b) (Some "glorot_uniform") reg c
      ++ [LDropout dropout]
      ++ classifier_layers n_classes (Some init_weights) reg c /\
    length (Keras.layers m) = (15 + 6 * length (concat gs) + length gs)%nat.
Proof.
  intros H.
  destruct (init_Ok base _ _ _ _ _ _ _ _ _ _ H)
    as (gs & b & rest & c & m & Hl & _ & _ & _ & Hc & _ & _ & Hm & Hg & Hls & _).
  exists gs, b, rest, c, m. do 4 (split; [done|]). split.
  - rewrite Hls. unfold model_layers, learner_layers.
    by rewrite <- !app_assoc.
  - rewrite <- (length_fmap node_layer), Hls. apply length_model.
Qed.

(** X10: the regularizer given to the constructor is the kernel
    regularizer of every convolution of the model.  The initializer given
    to the constructor is used by the first convolution (the stem's) and
    by the last one (the classifier's) only: the three convolutions of
    every fire block are initialized with the class default
    ['glorot_uniform'], whatever [init_weights] is. *)
Theorem hyperparameters_reach groups dropout input_shape n_classes init_weights
    reg relu s self s' :
  SqueezeNet.__init__ base groups dropout input_shape n_classes init_weights
    reg relu s = (Ok self, s') ->
  exists m,
    Composable._model self = Some m /\
    Forall (eq reg) (conv_regularizers (node_layer <$> Keras.layers m)) /\
    conv_initializers (node_layer <$> Keras.layers m)
    = Some init_weights
      :: replicate (3 * fire_blocks (node_layer <$> Keras.layers m))
           (Some "glorot_uniform")
      ++ [Some init_weights].
Proof.
  intros H.
  destruct (init_Ok base _ _ _ _ _ _ _ _ _ _ H)
    as (gs & b & rest & c & m & _ & _ & _ & _ & _ & _ & _ & Hm & _ & Hls & _).
  exists m. split; [done|]. rewrite Hls, fire_blocks_model.
  unfold model_layers, learner_layers. split.
  - change (InputLayer input_shape :: ?l) with ([InputLayer input_shape] ++ l).
    rewrite !conv_regularizers_app.
    repeat (apply Forall_app; split);
      auto using conv_regularizers_groups; repeat constructor.
  - change (InputLayer input_shape :: ?l) with ([InputLayer input_shape] ++ l).
    rewrite !conv_initializers_app, conv_initializers_groups.
    change (conv_initializers [InputLayer input_shape]) with (@nil (option string)).
    change (conv_initializers (stem_layers (Some init_weights) reg c))
      with [Some init_weights].
    change (conv_initializers (classifier_layers n_classes (Some init_weights) reg c))
      with [Some init_weights].
    change (conv_initializers [LDropout dropout]) with (@nil (option string)).
    change (conv_initializers (fire_layers (n_filters b) (Some "glorot_uniform") reg c))
      with (replicate 3 (Some "glorot_uniform")).
    rewrite app_nil_r, <- replicate_add.
    replace (3 * length (concat gs) + 3)%nat
      with (3 * (length (concat gs) + 1))%nat by lia.
    done.
Qed.

End Architecture.

(** ** Wiring: the graph is a directed acyclic graph *)

Lemma builds_bind {A B} P (m : M A) Q (k : A -> M B) R :
  builds P m Q -> (forall a, builds (Q a) (k a) R) -> builds P (bind m k) R.
Proof.
  intros Hm Hk s b s' HP H. apply bind_Ok in H as (a & s1 & H1 & H).
  eapply Hk; [|exact H]. by eapply Hm.
Qed.

Lemma builds_post {A} P (m : M A) (Q Q' : A -> state -> Prop) :
  builds P m Q -> (forall a s, Q a s -> Q' a s) -> builds P m Q'.
Proof. intros Hm HQ s a s' HP H. apply HQ. by eapply Hm. Qed.

Lemma builds_ret {A} (Q : A -> state -> Prop) a : builds (Q a) (ret a) Q.
Proof. intros s b s' HQ [= <- <-]. done. Qed.

Lemma builds_same_graph {A} n ts (m : M A) :
  (forall s a s', m s = (Ok a, s') -> graph s' = graph s) ->
  builds (wired n ts) m (fun _ => wired n ts).
Proof.
  intros Hm s a s' HP H. unfold wired in *. by rewrite (Hm _ _ _ H).
Qed.

Lemma wired_sub n ts ts' s : wired n ts s -> ts' ⊆ ts -> wired n ts' s.
Proof.
  intros (Hn & Hw & Hts) Hsub. split; [done|]. split; [done|].
  rewrite Forall_forall in *. auto.
Qed.

Lemma builds_call n ts rl ins :
  ins ⊆ ts ->
  builds (wired n ts) (Keras.call rl ins) (fun t => wired n (t :: ts)).
Proof.
  intros Hins s t s' (Hn & Hw & Hts) H.
  apply call_Ok in H as (l & _ & _ & Hi & ->). unfold wired. simpl.
  rewrite !length_app. simpl.
  split; [lia|]. split.
  - intros i nd Hnd Hni.
    destruct (decide (i < length (graph s))%nat) as [Hlt|Hge].
    + rewrite lookup_app_l in Hnd by done. by eapply Hw.
    + rewrite lookup_app_r in Hnd by lia.
      destruct (i - length (graph s))%nat as [|k] eqn:Hk; [|by destruct k].
      injection Hnd as <-. simpl. apply Forall_fmap, Forall_forall.
      intros x Hx. rewrite Forall_forall in Hts.
      specialize (Hts x (Hins x Hx)). simpl. lia.
  - constructor; [lia|].
    eapply Forall_impl; [exact Hts|]. intros x Hx. simpl in Hx. lia.
Qed.

Lemma builds_for_each {B} n ts (f : tensor -> B -> M tensor) l :
  (forall x b, builds (wired n (x :: ts)) (f x b) (fun t => wired n (t :: ts))) ->
  forall x,
    builds (wired n (x :: ts)) (for_each l f x) (fun t => wired n (t :: ts)).
Proof.
  intros Hf. induction l as [|b l IH]; intros x; simpl.
  - apply (builds_ret (fun t => wired n (t :: ts))).
  - eapply builds_bind; [apply Hf | apply IH].
Qed.

Lemma builds_call_kw {A} P (Q : A -> state -> Prop)
    (f : tensor -> value -> gmap string value -> M A) x ds :
  (forall iw mp, builds P (f x iw mp) Q) -> builds P (Python.call_kw f x ds) Q.
Proof.
  intros Hf s a s' HP H. apply call_kw_Ok in H as (kw & _ & _ & H).
  by eapply Hf.
Qed.

Ltac same_graph :=
  apply builds_same_graph; intros ? ? ?;
  first
    [ intros H; apply getitem_Ok in H as [_ <-]; reflexivity
    | intros H; apply first_Ok in H as (? & _ & ->); reflexivity
    | intros H; apply pop_Ok in H as (? & ? & _ & _ & ->); reflexivity
    | unfold Python.mul, Python.blocks_of, Python.elements, ret, raise;
      repeat case_match; intros [= _ <-]; reflexivity ].

Ltac pick_member :=
  solve [ reflexivity | assumption | left; solve [reflexivity | assumption]
        | right; pick_member ].

Ltac sub_list :=
  let y := fresh "y" in
  let Hy := fresh "Hy" in
  intros y Hy; rewrite ?elem_of_cons, ?elem_of_nil in Hy;
  rewrite ?elem_of_cons;
  repeat match goal with
         | H : _ \/ _ |- _ => destruct H as [H|H]
         | H : False |- _ => destruct H
         end;
  subst; pick_member.

Ltac last_call :=
  let Hw := fresh "Hw" in
  eapply builds_post;
  [ apply builds_call; sub_list
  | intros ? ? Hw; cbv beta in Hw; eapply wired_sub; [exact Hw | sub_list] ].

Section Wiring.

Variable base : Composable.attributes.

Lemma builds_fire_block n ts x iw mp :
  builds (wired n (x :: ts)) (SqueezeNet.fire_block base x iw mp)
    (fun t => wired n (t :: ts)).
Proof.
  unfold SqueezeNet.fire_block, Composable.ReLU.
  eapply builds_bind; [same_graph | intros n_filters].
  eapply builds_bind; [apply builds_call; sub_list | intros squeeze].
  eapply builds_bind; [same_graph | intros n1].
  eapply builds_bind; [apply builds_call; sub_list | intros e1].
  eapply builds_bind; [apply builds_call; sub_list | intros e1'].
  eapply builds_bind; [same_graph | intros n3].
  eapply builds_bind; [apply builds_call; sub_list | intros e3].
  eapply builds_bind; [apply builds_call; sub_list | intros e3'].
  last_call.
Qed.

Lemma builds_group n ts x iw mp :
  builds (wired n (x :: ts)) (SqueezeNet.group base x iw mp)
    (fun t => wired n (t :: ts)).
Proof.
  unfold SqueezeNet.group.
  eapply builds_bind; [same_graph | intros blocks].
  eapply builds_bind; [same_graph | intros bs].
  eapply builds_bind.
  { apply builds_for_each. intros x0 b.
    apply builds_call_kw. intros ? ?. apply builds_fire_block. }
  intros x1. last_call.
Qed.

Lemma builds_learner n ts self x mp :
  builds (wired n (x :: ts)) (SqueezeNet.learner base self x mp)
    (fun t => wired n (t :: ts)).
Proof.
  unfold SqueezeNet.learner.
  eapply builds_bind; [same_graph | intros groups].
  eapply builds_bind; [same_graph | intros lst].
  eapply builds_bind; [same_graph | intros gs].
  eapply builds_bind.
  { apply builds_for_each. intros x0 g.
    apply builds_call_kw. intros ? ?. apply builds_group. }
  intros x1.
  eapply builds_bind; [same_graph | intros b].
  eapply builds_bind.
  { apply builds_call_kw. intros ? ?. apply builds_fire_block. }
  intros x2. last_call.
Qed.

Lemma builds_stem n ts self x mp :
  builds (wired n (x :: ts)) (SqueezeNet.stem base self x mp)
    (fun t => wired n (t :: ts)).
Proof.
  unfold SqueezeNet.stem, Composable.ReLU.
  eapply builds_bind; [same_graph | intros rg].
  eapply builds_bind; [apply builds_call; sub_list | intros x1].
  eapply builds_bind; [apply builds_call; sub_list | intros x2].
  last_call.
Qed.

Lemma builds_classifier n ts self x v mp :
  builds (wired n (x :: ts)) (SqueezeNet.classifier base self x v mp)
    (fun r => wired n (r.1 :: ts)).
Proof.
  unfold SqueezeNet.classifier, Composable.ReLU.
  eapply builds_bind; [same_graph | intros rg].
  eapply builds_bind; [apply builds_call; sub_list | intros x1].
  eapply builds_bind; [apply builds_call; sub_list | intros x2].
  eapply builds_bind; [apply builds_call; sub_list | intros x3].
  eapply builds_bind; [apply builds_call; sub_list | intros x4].
  intros s r s' Hw [= <- <-]. simpl. eapply wired_sub; [exact Hw | sub_list].
Qed.

(** X11: a constructed model is a directed acyclic graph closed under
    inputs: every node of the model takes its inputs from nodes of the
    model that were created before it, whatever the graph held before the
    construction. *)
Theorem model_is_acyclic groups dropout input_shape n_classes init_weights
    reg relu s self s' :
  SqueezeNet.__init__ base groups dropout input_shape n_classes init_weights
    reg relu s = (Ok self, s') ->
  exists m,
    Composable._model self = Some m /\
    forall i nd, Keras.layers m !! i = Some nd ->
      Forall (fun j => (length (graph s) <= j < length (graph s) + i)%nat)
        (inbound nd).
Proof.
  intros H.
  destruct (init_Ok base _ _ _ _ _ _ _ _ _ _ H)
    as (gs & b & rest & c & m & _ & _ & _ & _ & _ & _ & _ & Hm & Hg & _).
  exists m. split; [done|].
  assert (Hw : wired_from (length (graph s)) (graph s')).
  { unfold SqueezeNet.__init__ in H.
    step H as inputs s1 H1. apply Input_Ok in H1 as (_ & -> & ->).
    step H as x1 s2 H2. step H as x2 s3 H3. step H as r4 s4 H4.
    step H as m' s5 H5. unfold Keras.Model in H5. injection H5 as _ <-.
    apply ret_Ok in H as [_ <-].
    eapply (builds_stem (length (graph s)) []) in H2.
    2: { split; [simpl; rewrite length_app; lia|]. split.
         - intros i nd Hnd Hi. simpl in Hnd.
           rewrite lookup_app_r in Hnd by lia.
           destruct (i - length (graph s))%nat as [|k]; [|by destruct k].
           injection Hnd as <-. constructor.
         - repeat constructor; simpl; rewrite ?length_app; simpl; lia. }
    eapply builds_learner in H3; [|exact H2].
    eapply builds_classifier in H4; [|exact H3].
    apply H4. }
  intros i nd Hnd.
  specialize (Hw (length (graph s) + i)%nat nd).
  rewrite Hg, lookup_app_r in Hw by lia.
  replace (length (graph s) + i - length (graph s))%nat with i in Hw by lia.
  apply Hw; [done | lia].
Qed.

End Wiring.

(** ** Shapes through the groups *)

Section Shapes.

Variable base : Composable.attributes.

(** A call of a fire block that returns, whatever the keywords are. *)
Lemma fire_call_Ok x ds s t s' :
  Python.call_kw (SqueezeNet.fire_block base) x ds s = (Ok t, s') ->
  exists kw n h w ch,
    Python.merge_all ds = Ok kw /\
    kw !! "n_filters" = Some (VInt n) /\
    tensor_shape x = [h; w; ch] /\
    tensor_shape t = [h; w; n * 4 + n * 4] /\
    heap s' = heap s /\
    length (graph s') = (length (graph s) + 6)%nat /\
    S (node_index t) = length (graph s').
Proof.
  intros H. apply call_kw_Ok in H as (kw & Hkw & _ & H).
  destruct (delete "init_weights" kw !! "n_filters") as [nv|] eqn:Hnf.
  2: { unfold SqueezeNet.fire_block in H. step H as nv s6 H6.
       apply getitem_Ok in H6 as [H6 _]. congruence. }
  assert (exists n, nv = VInt n) as [n ->].
  { pose proof H as H'. unfold SqueezeNet.fire_block in H'. step H' as nv' s6 H6.
    apply getitem_Ok in H6 as [H6 <-]. rewrite Hnf in H6. injection H6 as <-.
    step H' as sq s7 H7.
    apply conv_call_Ok in H7 as (n & _ & _ & _ & _ & _ & _ & -> & _). eauto. }
  destruct (fire_block_Ok base _ _ _ _ _ _ _ Hnf H)
    as (h & w & ch & i & r & c & Hx & _ & _ & _ & Hh & Hg & ->).
  exists kw, n, h, w, ch. split; [done|].
  rewrite lookup_delete_ne in Hnf by done.
  do 4 (split; [done|]). rewrite Hg, length_app. simpl. lia.
Qed.

Lemma group_loop_shape mp iw bs : forall x s t s',
  mp !! "n_filters" = None ->
  for_each bs
    (fun x block =>
       Python.call_kw (SqueezeNet.fire_block base) x
         [ {[ "init_weights" := iw ]}; Python.unpack block; mp ]) x s
    = (Ok t, s') ->
  declares_filters bs /\ heap s' = heap s /\
  length (graph s') = (length (graph s) + 6 * length bs)%nat /\
  forall h w c', tensor_shape t = [h; w; c'] ->
    exists c, tensor_shape x = [h; w; c] /\ c' = fire_channels c bs.
Proof.
  induction bs as [|b bs IH]; intros x s t s' Hnf H; simpl in H.
  - apply ret_Ok in H as [<- <-]. split; [constructor|]. split; [done|].
    split; [simpl; lia|]. intros h w c' Hx. by exists c'.
  - step H as x1 s1 H1.
    apply fire_call_Ok in H1
      as (kw & n & h1 & w1 & ch & Hkw & Hn & Hx & Hx1 & Hh1 & Hl1 & _).
    apply merge_all_cons in Hkw as (kw' & Hkw' & _ & ->).
    apply merge_all_pair in Hkw' as [_ ->].
    rewrite lookup_union_r in Hn by (by rewrite lookup_singleton_ne).
    rewrite lookup_union_l, unpack_lookup in Hn by done.
    destruct (b !! "n_filters") as [n'|] eqn:Hb; [|discriminate].
    injection Hn as ->.
    destruct (IH _ _ _ _ Hnf H) as (Hbs & Hh & Hl & Hsh).
    split; [constructor; eauto|]. split; [congruence|].
    split; [rewrite Hl, Hl1; simpl; lia|].
    intros h w c' Ht. destruct (Hsh _ _ _ Ht) as (c1 & Hx1' & ->).
    rewrite Hx1 in Hx1'. injection Hx1' as -> -> <-.
    exists ch. split; [done|]. simpl.
    match type of Hb with _ = Some ?k =>
      replace (n_filters b) with k by (unfold n_filters; by rewrite Hb) end.
    done.
Qed.

Lemma group_shape x iw mp bs s t s' :
  mp !! "blocks" = Some (VBlocks bs) ->
  mp !! "n_filters" = None ->
  SqueezeNet.group base x iw mp s = (Ok t, s') ->
  exists h w c,
    tensor_shape x = [h; w; c] /\ 3 <= h /\ 3 <= w /\
    declares_filters bs /\
    tensor_shape t = [pooled h; pooled w; fire_channels c bs] /\
    heap s' = heap s /\
    length (graph s') = (length (graph s) + 6 * length bs + 1)%nat /\
    node_layer <$> last (graph s') = Some (LMaxPooling2D (3, 3) (2, 2)) /\
    S (node_index t) = length (graph s').
Proof.
  intros Hbs Hnf H. unfold SqueezeNet.group in H.
  step H as v s0 H0. apply getitem_Ok in H0 as [Hb <-]. rewrite Hbs in Hb.
  injection Hb as <-. step H as bs' s1 H1. simpl in H1.
  apply ret_Ok in H1 as [<- <-].
  step H as x1 s2 H2.
  apply group_loop_shape in H2 as (Hd & Hh & Hl & Hsh); [|done].
  apply pool_call_Ok in H as (h & w & c' & Hx1 & Hh3 & Hw3 & -> & ->); [|done..].
  destruct (Hsh _ _ _ Hx1) as (c & Hx & ->).
  exists h, w, c. do 4 (split; [done|]). simpl. split; [done|].
  split; [done|]. rewrite length_app, last_snoc. simpl.
  split; [lia|]. split; [done|lia].
Qed.

Lemma learner_loop_shape mp gs : forall x s t s' h w c,
  mp !! "n_filters" = None ->
  for_each gs
    (fun x g =>
       Python.call_kw (SqueezeNet.group base) x
         [ {[ "blocks" := VBlocks g ]}; mp ]) x s = (Ok t, s') ->
  tensor_shape x = [h; w; c] ->
  tensor_shape t = [Nat.iter (length gs) pooled h; Nat.iter (length gs) pooled w;
                    fire_channels c (concat gs)].
Proof.
  induction gs as [|g gs IH]; intros x s t s' h w c Hnf H Hx; simpl in H.
  - apply ret_Ok in H as [<- <-]. done.
  - step H as x1 s1 H1.
    apply call_kw_Ok in H1 as (kw & Hkw & _ & H1).
    apply merge_all_pair in Hkw as [_ ->].
    apply group_shape with (bs := g) in H1
      as (h' & w' & c' & Hx' & _ & _ & _ & Hx1 & _).
    + rewrite Hx in Hx'. injection Hx' as <- <- <-.
      rewrite (IH _ _ _ _ _ _ _ Hnf H Hx1).
      cbn [length concat]. rewrite !Nat.iter_succ_r.
      unfold fire_channels. by rewrite foldl_app.
    + rewrite lookup_delete_ne by done.
      rewrite lookup_union_l', lookup_singleton_eq; [done|].
      rewrite lookup_singleton_eq; eauto.
    + rewrite lookup_delete_ne by done.
      rewrite lookup_union_r by (by rewrite lookup_singleton_ne). done.
Qed.

Lemma learner_shape self x mp l d s t s' :
  mp !! "groups" = Some (VList l) ->
  mp !! "dropout" = Some (VFloat d) ->
  mp !! "n_filters" = None ->
  SqueezeNet.learner base self x mp s = (Ok t, s') ->
  exists gs b rest,
    heap s !! l = Some (gs ++ [b :: rest]) /\
    forall h w c, tensor_shape x = [h; w; c] ->
      tensor_shape t
      = [Nat.iter (length gs) pooled h; Nat.iter (length gs) pooled w;
         n_filters b * 4 + n_filters b * 4].
Proof.
  intros Hg Hd Hnf H. unfold SqueezeNet.learner in H.
  step H as v s0 H0. apply getitem_Ok in H0 as [Hg' <-]. rewrite Hg in Hg'.
  injection Hg' as <-. rewrite Hd in H.
  step H as lst s1 H1. apply pop_Ok in H1 as (l' & gs & [= <-] & Hl & ->).
  step H as gs' s2 H2. apply elements_Ok in H2 as [Hl' ->]. simpl in Hl'.
  rewrite lookup_insert_eq in Hl'. injection Hl' as <-.
  step H as x1 s3 H3. step H as b s4 H4. apply first_Ok in H4 as (rest & -> & ->).
  step H as x2 s5 H5.
  apply fire_call_Ok in H5
    as (kw & n & h1 & w1 & ch & Hkw & Hn & Hx1 & Hx2 & _).
  apply merge_all_pair in Hkw as [_ ->].
  rewrite lookup_union_l, unpack_lookup in Hn by done.
  destruct (b !! "n_filters") as [n'|] eqn:Hb; [|discriminate].
  injection Hn as Hn.
  apply dropout_call_Ok in H as (_ & _ & ->).
  exists gs, b, rest. split; [done|]. intros h w c Hx.
  rewrite (learner_loop_shape _ _ _ _ _ _ _ _ _ Hnf H3 Hx) in Hx1.
  injection Hx1 as <- <- _. simpl. rewrite Hx2.
  replace (n_filters b) with n by (unfold n_filters; rewrite Hb; simpl; congruence).
  done.
Qed.

(** X12: a fire group on the blocks [bs], called with no ['n_filters']
    keyword of its own.  When it returns, every block declared its filter
    count, the input was a feature map of at least 3 by 3, and the group
    has added six nodes per block and one 3x3 max pooling of stride 2 as
    its last node: the output is the pooling's tensor, its height and
    width are [(n - 3) / 2 + 1] of the input's, and it has eight times the
    last block's filter count as channels (the input's channels when the
    group has no block).  The store is untouched. *)
Theorem group_structure x init_weights metaparameters bs s t s' :
  metaparameters !! "blocks" = Some (VBlocks bs) ->
  metaparameters !! "n_filters" = None ->
  SqueezeNet.group base x init_weights metaparameters s = (Ok t, s') ->
  exists h w c,
    tensor_shape x = [h; w; c] /\ 3 <= h /\ 3 <= w /\
    declares_filters bs /\
    tensor_shape t = [(h - 3) / 2 + 1; (w - 3) / 2 + 1;
                      match last bs with
                      | Some b => 8 * n_filters b
                      | None => c
                      end] /\
    heap s' = heap s /\
    length (graph s') = (length (graph s) + 6 * length bs + 1)%nat /\
    node_layer <$> last (graph s') = Some (LMaxPooling2D (3, 3) (2, 2)) /\
    S (node_index t) = length (graph s').
Proof.
  intros Hbs Hnf H.
  destruct (group_shape _ _ _ _ _ _ _ Hbs Hnf H)
    as (h & w & c & Hx & Hh & Hw & Hd & Ht & Hrest).
  exists h, w, c. do 4 (split; [done|]). split; [|done].
  rewrite Ht. unfold pooled. do 3 f_equal.
  destruct (last bs) as [b|] eqn:Hlast.
  - apply last_Some in Hlast as [bs' ->]. unfold fire_channels.
    rewrite foldl_app. simpl. lia.
  - apply last_None in Hlast as ->. done.
Qed.

(** X13: the feature map a constructed model saves as its encoding.  On
    an input of [h] by [w], after the stride-2 convolution of the stem
    and one 3x3 max pooling of stride 2 for the stem and for each of the
    [k] groups before the last one, the encoding has height and width
    [pooled^(k+1) ((h + 1) / 2)], and eight times the filter count of the
    last fire block as channels. *)
Theorem encoding_shape groups dropout input_shape n_classes init_weights
    reg relu s self s' :
  SqueezeNet.__init__ base groups dropout input_shape n_classes init_weights
    reg relu s = (Ok self, s') ->
  exists h w ch gs b rest e,
    input_shape = [h; w; ch] /\
    heap s !! default SqueezeNet.groups_ref groups = Some (gs ++ [b :: rest]) /\
    Composable.encoding self = Some e /\
    tensor_shape e
    = [Nat.iter (S (length gs)) pooled ((h + 1) / 2);
       Nat.iter (S (length gs)) pooled ((w + 1) / 2);
       8 * n_filters b].
Proof.
  intros H. unfold SqueezeNet.__init__ in H.
  step H as inputs s1 H1. apply Input_Ok in H1 as (_ & -> & ->).
  step H as x1 s2 H2.
  eapply stem_Ok in H2
    as (h & w & ch & i & r & c & Hin & _ & _ & _ & _ & _ & Hh2 & _ & ->);
    [|apply lookup_singleton_eq].
  simpl in Hin, Hh2.
  step H as x2 s3 H3.
  eapply learner_shape with (l := default SqueezeNet.groups_ref groups)
    (d := dropout) in H3 as (gs & b & rest & Hl & Hx2);
    [| by destruct groups | done | done].
  step H as r4 s4 H4. destruct r4 as [outputs self4].
  eapply classifier_Ok in H4
    as (n & h4 & w4 & ch4 & i4 & r4 & c4 & _ & _ & _ & _ & _ & _ & _ & _ & _
        & He & _);
    [|apply lookup_singleton_eq].
  step H as m s5 H5. apply ret_Ok in H as [<- _]. simpl.
  exists h, w, ch, gs, b, rest, x2. split; [done|].
  split; [by rewrite <- Hh2|]. split; [done|].
  rewrite (Hx2 _ _ _ eq_refl).
  change (((h + 2 - 1) / 2 - 3) / 2 + 1) with (pooled ((h + 2 - 1) / 2)).
  change (((w + 2 - 1) / 2 - 3) / 2 + 1) with (pooled ((w + 2 - 1) / 2)).
  rewrite <- !Nat.iter_succ_r.
  replace (h + 2 - 1) with (h + 1) by lia.
  replace (w + 2 - 1) with (w + 1) by lia.
  f_equal. f_equal. f_equal. lia.
Qed.

(** X14: the three layers a constructed model saves.  The encoding is the
    output of the learner's dropout and feeds the classifier's
    convolution; the probabilities are the output of the global average
    pooling, with [n_classes] entries, and feed the softmax; the softmax
    is the output of the model. *)
Theorem saved_layers groups dropout input_shape n_classes init_weights
    reg relu s self s' :
  SqueezeNet.__init__ base groups dropout input_shape n_classes init_weights
    reg relu s = (Ok self, s') ->
  exists m e p,
    Composable._model self = Some m /\
    Composable.encoding self = Some e /\
    Composable.probabilities self = Some p /\
    Composable.softmax self = Some (Keras.outputs m) /\
    node_layer <$> graph s' !! node_index e = Some (LDropout dropout) /\
    inbound <$> graph s' !! S (node_index e) = Some [node_index e] /\
    tensor_shape p = [n_classes] /\
    (node_layer <$> graph s' !! node_index p) = Some LGlobalAveragePooling2D /\
    graph s' !! node_index (Keras.outputs m)
    = Some (Node (LActivation "softmax") [node_index p] [n_classes]).
Proof.
  intros H. unfold SqueezeNet.__init__ in H.
  step H as inputs s1 H1. apply Input_Ok in H1 as (_ & -> & ->).
  step H as x1 s2 H2.
  eapply stem_Ok in H2
    as (h & w & ch & i & r & c & _ & _ & Hr & Hc & _ & _ & _ & _ & ->);
    [|apply lookup_singleton_eq].
  step H as x2 s3 H3.
  eapply learner_Ok with (l := default SqueezeNet.groups_ref groups) (d := dropout)
    in H3 as (gs & b & rest & _ & _ & _ & _ & (ns & Hg3 & Hns) & Hx2);
    [| by destruct groups | done | done | done | done | exact Hr | exact Hc ].
  step H as r4 s4 H4. destruct r4 as [outputs self4].
  eapply classifier_Ok in H4
    as (n & h4 & w4 & ch4 & i4 & r4 & c4 & [= <-] & _ & _ & _ & _ & _ & _ & Hg4
        & -> & He & Hp & Hs & _);
    [|apply lookup_singleton_eq].
  step H as m s5 H5. unfold Keras.Model in H5. injection H5 as <- <-.
  apply ret_Ok in H as [<- <-]. simpl.
  assert (Hlen : (0 < length (graph s3))%nat).
  { rewrite Hg3, length_app, <- (length_fmap node_layer ns), Hns.
    unfold learner_layers. rewrite !length_app. simpl. lia. }
  eexists _, x2, _. split; [reflexivity|]. do 3 (split; [eassumption|]).
  simpl. rewrite Hg4.
  split.
  { rewrite lookup_app_l by lia. rewrite Hx2, <- last_lookup.
    rewrite <- fmap_last, Hg3, fmap_app, Hns. unfold learner_layers.
    rewrite !app_assoc. by rewrite last_snoc. }
  split.
  { rewrite lookup_app_r by lia.
    replace (S (node_index x2) - length (graph s3))%nat with 0%nat by lia. done. }
  split; [done|]. split.
  { rewrite lookup_app_r by lia.
    replace (length (graph s3) + 2 - length (graph s3))%nat with 2%nat by lia. done. }
  rewrite lookup_app_r by lia.
  replace (length (graph s3) + 3 - length (graph s3))%nat with 3%nat by lia.
  simpl. do 3 f_equal. lia.
Qed.

(** X15: two constructions on the same list of groups.  When both return,
    the list had at least two groups; the first model is built on all of
    them, the second one on the list without its last group, so it has one
    fire group less and its last fire block comes from what was the
    second-to-last group; afterwards the list has lost two groups. *)
Theorem second_construction groups d1 shape1 n1 iw1 reg1 relu1
    d2 shape2 n2 iw2 reg2 relu2 s i1 s1 i2 s2 :
  SqueezeNet.__init__ base groups d1 shape1 n1 iw1 reg1 relu1 s = (Ok i1, s1) ->
  SqueezeNet.__init__ base groups d2 shape2 n2 iw2 reg2 relu2 s1 = (Ok i2, s2) ->
  exists gs b2 rest2 b1 rest1 m1 m2,
    heap s !! default SqueezeNet.groups_ref groups
    = Some (gs ++ [b2 :: rest2; b1 :: rest1]) /\
    heap s2 !! default SqueezeNet.groups_ref groups = Some gs /\
    Composable._model i1 = Some m1 /\ Composable._model i2 = Some m2 /\
    fire_groups (node_layer <$> Keras.layers m1) = S (length gs) /\
    fire_groups (node_layer <$> Keras.layers m2) = length gs /\
    squeeze_filters (node_layer <$> Keras.layers m1)
    = (n_filters <$> concat gs) ++ (n_filters <$> (b2 :: rest2)) ++ [n_filters b1] /\
    squeeze_filters (node_layer <$> Keras.layers m2)
    = (n_filters <$> concat gs) ++ [n_filters b2].
Proof.
  intros H1 H2.
  destruct (init_Ok base _ _ _ _ _ _ _ _ _ _ H1)
    as (gs1 & b1 & rest1 & c1 & m1 & Hl1 & Hh1 & _ & _ & _ & _ & _ & Hm1 & _ & Hls1 & _).
  destruct (init_Ok base _ _ _ _ _ _ _ _ _ _ H2)
    as (gs & b2 & rest2 & c2 & m2 & Hl2 & Hh2 & _ & _ & _ & _ & _ & Hm2 & _ & Hls2 & _).
  rewrite Hh1, lookup_insert_eq in Hl2. injection Hl2 as ->.
  exists gs, b2, rest2, b1, rest1, m1, m2.
  split; [by rewrite Hl1, <- app_assoc|].
  split; [by rewrite Hh2, lookup_insert_eq|].
  do 2 (split; [done|]). rewrite Hls1, Hls2.
  rewrite !fire_groups_model, !squeeze_filters_model, length_app. simpl.
  split; [lia|]. split; [done|]. split; [|done].
  rewrite concat_app, fmap_app, <- app_assoc. simpl. by rewrite app_nil_r.
Qed.

(** X16: the stem and the classifier read ['reg'] with no fallback.
    Either of them raises a [KeyError] exactly when its keyword arguments
    have no ['reg'], and then it has changed nothing; every other exception
    of the two methods is an error of the framework. *)
Theorem stem_classifier_errors self x v metaparameters s :
  (metaparameters !! "reg" = None ->
   SqueezeNet.stem base self x metaparameters s = (Raise (KeyError "reg"), s) /\
   SqueezeNet.classifier base self x v metaparameters s
   = (Raise (KeyError "reg"), s)) /\
  (forall e s',
     SqueezeNet.stem base self x metaparameters s = (Raise e, s') \/
     SqueezeNet.classifier base self x v metaparameters s = (Raise e, s') ->
     (e = KeyError "reg" /\ metaparameters !! "reg" = None /\ s' = s) \/
     (is_Some (metaparameters !! "reg") /\
      exists layer_name, e = FrameworkError layer_name)).
Proof.
  split.
  { intros Hn.
    unfold SqueezeNet.stem, SqueezeNet.classifier, bind, Python.getitem.
    by rewrite Hn. }
  intros e s'.
  assert (Hget : forall A (k : value -> M A),
            bind (Python.getitem metaparameters "reg") k s = (Raise e, s') ->
            (e = KeyError "reg" /\ metaparameters !! "reg" = None /\ s' = s) \/
            (is_Some (metaparameters !! "reg") /\
             exists rv, metaparameters !! "reg" = Some rv /\ k rv s = (Raise e, s'))).
  { intros A k H. apply bind_Raise in H as [H | (rv & s1 & Hv & H)].
    - left. unfold Python.getitem in H.
      destruct (metaparameters !! "reg"); [discriminate|].
      by injection H as <- <-.
    - apply getitem_Ok in Hv as [Hv <-]. right. eauto. }
  intros [H | H].
  - unfold SqueezeNet.stem in H.
    apply Hget in H as [H | (Hreg & rv & _ & H)]; [by left|].
    right. split; [done|].
    repeat match type of H with
    | bind _ _ _ = (Raise _, _) =>
        let a := fresh "a" in let s0 := fresh "s" in
        apply bind_Raise in H as [H | (a & s0 & _ & H)]
    end;
    (eapply call_raises_framework; [|exact H]); intros e0 He0;
      first [ apply Conv2D_raises_framework in He0
            | apply ReLU_raises_framework in He0
            | unfold Keras.MaxPooling2D in He0; simpl in He0; discriminate ];
      eauto.
  - unfold SqueezeNet.classifier in H.
    apply Hget in H as [H | (Hreg & rv & _ & H)]; [by left|].
    right. split; [done|].
    repeat match type of H with
    | bind _ _ _ = (Raise _, _) =>
        let a := fresh "a" in let s0 := fresh "s" in
        apply bind_Raise in H as [H | (a & s0 & _ & H)]
    end;
    try discriminate;
    (eapply call_raises_framework; [|exact H]); intros e0 He0;
      first [ apply Conv2D_raises_framework in He0
            | apply ReLU_raises_framework in He0
            | discriminate ];
      eauto.
Qed.

End Shapes.

(** ** The further properties on concrete configurations *)

(** X4 on a call without keyword arguments. *)
Lemma fire_block_errors_witness :
  (∅ : gmap string value) !! "n_filters" = None /\
  SqueezeNet.fire_block Examples.base Examples.x VNone ∅ Examples.after_input
  = (Raise (KeyError "n_filters"), Examples.after_input) /\
  exists e s',
    SqueezeNet.fire_block Examples.base Examples.x VNone
      {[ "n_filters" := VInt 0 ]} Examples.after_input = (Raise e, s') /\
    ((e = KeyError "n_filters" /\
      ({[ "n_filters" := VInt 0 ]} : gmap string value) !! "n_filters" = None /\
      s' = Examples.after_input) \/
     (is_Some (({[ "n_filters" := VInt 0 ]} : gmap string value) !! "n_filters") /\
      exists layer_name, e = FrameworkError layer_name)).
Proof.
  assert (Hn : (∅ : gmap string value) !! "n_filters" = None) by reflexivity.
  split; [exact Hn|]. split.
  - exact (proj1 (fire_block_errors Examples.base Examples.x VNone ∅
                    Examples.after_input) Hn).
  - destruct (SqueezeNet.fire_block Examples.base Examples.x VNone
                {[ "n_filters" := VInt 0 ]} Examples.after_input)
      as [[t|e] s'] eqn:H.
    + exfalso. vm_compute in H. discriminate.
    + exists e, s'. split; [reflexivity|].
      exact (proj2 (fire_block_errors Examples.base _ _ _ _) _ _ H).
Defined.

(** X5 on a block that carries a regularizer of its own. *)
Lemma block_key_collision_witness :
  is_Some (({[ "n_filters" := 16; "reg" := 1 ]} : block) !! "reg") /\
  Python.call_kw (SqueezeNet.fire_block Examples.base) Examples.x
    [ Python.unpack {[ "n_filters" := 16; "reg" := 1 ]}; {[ "reg" := VNone ]} ]
    Examples.after_input = (Raise TypeError, Examples.after_input) /\
  Python.call_kw (SqueezeNet.fire_block Examples.base) Examples.x
    [ {[ "init_weights" := VStr "glorot_uniform" ]};
      Python.unpack {[ "n_filters" := 16; "reg" := 1 ]}; {[ "reg" := VNone ]} ]
    Examples.after_input = (Raise TypeError, Examples.after_input).
Proof.
  assert (Hb : is_Some (({[ "n_filters" := 16; "reg" := 1 ]} : block) !! "reg"))
    by (exists 1; reflexivity).
  assert (Hk : is_Some (({[ "reg" := VNone ]} : gmap string value) !! "reg"))
    by (exists VNone; reflexivity).
  split; [exact Hb|].
  destruct (block_key_collision Examples.base Examples.x (VStr "glorot_uniform")
              {[ "n_filters" := 16; "reg" := 1 ]} {[ "reg" := VNone ]} "reg"
              Examples.after_input Hb) as [H1 H2].
  split; [apply H1 | apply H2]; auto.
Defined.

(** X6 on an empty list of the caller and a 224 x 224 image. *)
Lemma empty_table_construction_witness :
  heap (Examples.with_table []) !! Examples.caller_ref = Some [] /\
  exists nodes,
    SqueezeNet.__init__ Examples.base (Some Examples.caller_ref) (1 # 2)
      [224; 224; 3] 1000 "glorot_uniform" (Some (l2 (1 # 1000))) None
      (Examples.with_table [])
    = (Raise IndexError,
       State (heap (Examples.with_table []))
         (graph (Examples.with_table []) ++ nodes)) /\
    node_layer <$> nodes
    = InputLayer [224; 224; 3]
      :: stem_layers (Some "glorot_uniform") (Some (l2 (1 # 1000))) None.
Proof.
  split; [reflexivity|].
  apply (empty_table_construction Examples.base (Some Examples.caller_ref)
           (1 # 2) 224 224 3 1000 "glorot_uniform" (Some (l2 (1 # 1000))) None
           None (Examples.with_table []));
    first [reflexivity | lia].
Defined.

(** X7 on a list that holds one empty group. *)
Lemma learner_empty_last_group_witness :
  heap (Examples.with_table [[]]) !! Examples.caller_ref = Some ([] ++ [[]]) /\
  exists e s',
    SqueezeNet.learner Examples.base (Composable.__init__ VNone VNone VNone)
      Examples.x {[ "groups" := VList Examples.caller_ref ]}
      (Examples.with_table [[]]) = (Raise e, s') /\
    heap s' = <[Examples.caller_ref := []]> (heap (Examples.with_table [[]])) /\
    e = IndexError.
Proof.
  assert (Hg : ({[ "groups" := VList Examples.caller_ref ]} : gmap string value)
               !! "groups" = Some (VList Examples.caller_ref)) by reflexivity.
  assert (Hl : heap (Examples.with_table [[]]) !! Examples.caller_ref
               = Some ([] ++ [[]])) by reflexivity.
  split; [exact Hl|].
  destruct (learner_empty_last_group Examples.base
              (Composable.__init__ VNone VNone VNone) Examples.x
              {[ "groups" := VList Examples.caller_ref ]} Examples.caller_ref []
              (Examples.with_table [[]]) Hg Hl)
    as (e & s' & H & Hh & He).
  exists e, s'. split; [exact H|]. split; [exact Hh|].
  exact (proj1 (He Examples.x _ eq_refl)).
Defined.

(** X8 on the caller's table, without a ['dropout'] keyword. *)
Lemma learner_ends_in_dropout_witness :
  exists t s',
    SqueezeNet.learner Examples.base (Composable.__init__ VNone VNone VNone)
      Examples.x {[ "groups" := VList Examples.caller_ref ]}
      (State (heap (Examples.with_table Examples.two_groups))
         (graph Examples.after_input)) = (Ok t, s') /\
    exists rate k,
      Keras.Dropout (VFloat (1 # 2)) = Ok (LDropout rate) /\
      last (graph s') = Some (Node (LDropout rate) [k] (tensor_shape t)) /\
      node_layer <$> graph s' !! k = Some LConcatenate /\
      S k = node_index t /\ S (node_index t) = length (graph s').
Proof.
  destruct (SqueezeNet.learner Examples.base (Composable.__init__ VNone VNone VNone)
              Examples.x {[ "groups" := VList Examples.caller_ref ]}
              (State (heap (Examples.with_table Examples.two_groups))
                 (graph Examples.after_input))) as [[t|e] s'] eqn:H.
  - exists t, s'. split; [reflexivity|].
    exact (learner_ends_in_dropout Examples.base _ _ _ _ _ _ H).
  - exfalso. vm_compute in H. discriminate.
Defined.

(** X9 on the default configuration. *)
Lemma constructed_layers_witness :
  exists self s',
    SqueezeNet.__init__ Examples.base None (1 # 2) [224; 224; 3] 1000
      "glorot_uniform" (Some (l2 (1 # 1000))) None SqueezeNet.loaded
    = (Ok self, s') /\
    exists gs b rest c m,
      heap SqueezeNet.loaded !! SqueezeNet.groups_ref = Some (gs ++ [b :: rest]) /\
      Keras.ReLU (Composable.relu Examples.base) = Ok (LReLU c) /\
      Composable._model self = Some m /\
      graph s' = graph SqueezeNet.loaded ++ Keras.layers m /\
      node_layer <$> Keras.layers m
      = InputLayer [224; 224; 3]
        :: stem_layers (Some "glorot_uniform") (Some (l2 (1 # 1000))) c
        ++ flat_map (group_layers (Some "glorot_uniform") (Some (l2 (1 # 1000))) c) gs
        ++ fire_layers (n_filters b) (Some "glorot_uniform") (Some (l2 (1 # 1000))) c
        ++ [LDropout (1 # 2)]
        ++ classifier_layers 1000 (Some "glorot_uniform") (Some (l2 (1 # 1000))) c /\
      length (Keras.layers m) = (15 + 6 * length (concat gs) + length gs)%nat.
Proof.
  destruct (SqueezeNet.__init__ Examples.base None (1 # 2) [224; 224; 3] 1000
              "glorot_uniform" (Some (l2 (1 # 1000))) None SqueezeNet.loaded)
    as [[self|e] s'] eqn:H.
  - exists self, s'. split; [reflexivity|].
    exact (constructed_layers Examples.base _ _ _ _ _ _ _ _ _ _ H).
  - exfalso. vm_compute in H. discriminate.
Defined.

(** X10 on a construction with the initializer ['he_normal']. *)
Lemma hyperparameters_reach_witness :
  exists self s',
    SqueezeNet.__init__ Examples.base None (1 # 2) [224; 224; 3] 1000
      "he_normal" (Some (l2 (1 # 1000))) None SqueezeNet.loaded
    = (Ok self, s') /\
    exists m,
      Composable._model self = Some m /\
      Forall (eq (Some (l2 (1 # 1000))))
        (conv_regularizers (node_layer <$> Keras.layers m)) /\
      conv_initializers (node_layer <$> Keras.layers m)
      = Some "he_normal"
        :: replicate (3 * fire_blocks (node_layer <$> Keras.layers m))
             (Some "glorot_uniform")
        ++ [Some "he_normal"].
Proof.
  destruct (SqueezeNet.__init__ Examples.base None (1 # 2) [224; 224; 3] 1000
              "he_normal" (Some (l2 (1 # 1000))) None SqueezeNet.loaded)
    as [[self|e] s'] eqn:H.
  - exists self, s'. split; [reflexivity|].
    exact (hyperparameters_reach Examples.base _ _ _ _ _ _ _ _ _ _ H).
  - exfalso. vm_compute in H. discriminate.
Defined.

(** X11 on the default configuration. *)
Lemma model_is_acyclic_witness :
  exists self s',
    SqueezeNet.__init__ Examples.base None (1 # 2) [224; 224; 3] 1000
      "glorot_uniform" (Some (l2 (1 # 1000))) None SqueezeNet.loaded
    = (Ok self, s') /\
    exists m,
      Composable._model self = Some m /\
      forall i nd, Keras.layers m !! i = Some nd ->
        Forall (fun j => (length (graph SqueezeNet.loaded) <= j
                          < length (graph SqueezeNet.loaded) + i)%nat)
          (inbound nd).
Proof.
  destruct (SqueezeNet.__init__ Examples.base None (1 # 2) [224; 224; 3] 1000
              "glorot_uniform" (Some (l2 (1 # 1000))) None SqueezeNet.loaded)
    as [[self|e] s'] eqn:H.
  - exists self, s'. split; [reflexivity|].
    exact (model_is_acyclic Examples.base _ _ _ _ _ _ _ _ _ _ H).
  - exfalso. vm_compute in H. discriminate.
Defined.

(** X12 on a group of two blocks. *)
Lemma group_structure_witness :
  exists t s',
    SqueezeNet.group Examples.base Examples.x VNone
      {[ "blocks" := VBlocks [ {[ "n_filters" := 16 ]}; {[ "n_filters" := 32 ]} ] ]}
      Examples.after_input = (Ok t, s') /\
    exists h w c,
      tensor_shape Examples.x = [h; w; c] /\ 3 <= h /\ 3 <= w /\
      declares_filters [ {[ "n_filters" := 16 ]}; {[ "n_filters" := 32 ]} ] /\
      tensor_shape t
      = [(h - 3) / 2 + 1; (w - 3) / 2 + 1;
         match last [ ({[ "n_filters" := 16 ]} : block); {[ "n_filters" := 32 ]} ] with
         | Some b => 8 * n_filters b
         | None => c
         end] /\
      heap s' = heap Examples.after_input /\
      length (graph s') = (length (graph Examples.after_input) + 6 * 2 + 1)%nat /\
      node_layer <$> last (graph s') = Some (LMaxPooling2D (3, 3) (2, 2)) /\
      S (node_index t) = length (graph s').
Proof.
  destruct (SqueezeNet.group Examples.base Examples.x VNone
              {[ "blocks" := VBlocks [ {[ "n_filters" := 16 ]};
                                       {[ "n_filters" := 32 ]} ] ]}
              Examples.after_input) as [[t|e] s'] eqn:H.
  - exists t, s'. split; [reflexivity|].
    assert (Hb : ({[ "blocks" := VBlocks [ {[ "n_filters" := 16 ]};
                                           {[ "n_filters" := 32 ]} ] ]}
                  : gmap string value) !! "blocks"
                 = Some (VBlocks [ {[ "n_filters" := 16 ]}; {[ "n_filters" := 32 ]} ]))
      by reflexivity.
    assert (Hn : ({[ "blocks" := VBlocks [ {[ "n_filters" := 16 ]};
                                           {[ "n_filters" := 32 ]} ] ]}
                  : gmap string value) !! "n_filters" = None)
      by reflexivity.
    exact (group_structure Examples.base Examples.x VNone _ _ _ t s' Hb Hn H).
  - exfalso. vm_compute in H. discriminate.
Defined.

(** X13 on the default configuration: the encoding is 13 x 13 x 512. *)
Lemma encoding_shape_witness :
  exists self s',
    SqueezeNet.__init__ Examples.base None (1 # 2) [224; 224; 3] 1000
      "glorot_uniform" (Some (l2 (1 # 1000))) None SqueezeNet.loaded
    = (Ok self, s') /\
    exists h w ch gs b rest e,
      [224; 224; 3] = [h; w; ch] /\
      heap SqueezeNet.loaded !! SqueezeNet.groups_ref = Some (gs ++ [b :: rest]) /\
      Composable.encoding self = Some e /\
      tensor_shape e
      = [Nat.iter (S (length gs)) pooled ((h + 1) / 2);
         Nat.iter (S (length gs)) pooled ((w + 1) / 2);
         8 * n_filters b].
Proof.
  destruct (SqueezeNet.__init__ Examples.base None (1 # 2) [224; 224; 3] 1000
              "glorot_uniform" (Some (l2 (1 # 1000))) None SqueezeNet.loaded)
    as [[self|e] s'] eqn:H.
  - exists self, s'. split; [reflexivity|].
    exact (encoding_shape Examples.base _ _ _ _ _ _ _ _ _ _ H).
  - exfalso. vm_compute in H. discriminate.
Defined.

(** X14 on the default configuration. *)
Lemma saved_layers_witness :
  exists self s',
    SqueezeNet.__init__ Examples.base None (1 # 2) [224; 224; 3] 1000
      "glorot_uniform" (Some (l2 (1 # 1000))) None SqueezeNet.loaded
    = (Ok self, s') /\
    exists m e p,
      Composable._model self = Some m /\
      Composable.encoding self = Some e /\
      Composable.probabilities self = Some p /\
      Composable.softmax self = Some (Keras.outputs m) /\
      node_layer <$> graph s' !! node_index e = Some (LDropout (1 # 2)) /\
      inbound <$> graph s' !! S (node_index e) = Some [node_index e] /\
      tensor_shape p = [1000] /\
      (node_layer <$> graph s' !! node_index p) = Some LGlobalAveragePooling2D /\
      graph s' !! node_index (Keras.outputs m)
      = Some (Node (LActivation "softmax") [node_index p] [1000]).
Proof.
  destruct (SqueezeNet.__init__ Examples.base None (1 # 2) [224; 224; 3] 1000
              "glorot_uniform" (Some (l2 (1 # 1000))) None SqueezeNet.loaded)
    as [[self|e] s'] eqn:H.
  - exists self, s'. split; [reflexivity|].
    exact (saved_layers Examples.base _ _ _ _ _ _ _ _ _ _ H).
  - exfalso. vm_compute in H. discriminate.
Defined.

(** X15 on two default constructions in a row. *)
Lemma second_construction_witness :
  exists i1 s1 i2 s2,
    SqueezeNet.__init__ Examples.base None (1 # 2) [224; 224; 3] 1000
      "glorot_uniform" (Some (l2 (1 # 1000))) None SqueezeNet.loaded
    = (Ok i1, s1) /\
    SqueezeNet.__init__ Examples.base None (1 # 2) [224; 224; 3] 10
      "he_normal" None None s1 = (Ok i2, s2) /\
    exists gs b2 rest2 b1 rest1 m1 m2,
      heap SqueezeNet.loaded !! SqueezeNet.groups_ref
      = Some (gs ++ [b2 :: rest2; b1 :: rest1]) /\
      heap s2 !! SqueezeNet.groups_ref = Some gs /\
      Composable._model i1 = Some m1 /\ Composable._model i2 = Some m2 /\
      fire_groups (node_layer <$> Keras.layers m1) = S (length gs) /\
      fire_groups (node_layer <$> Keras.layers m2) = length gs /\
      squeeze_filters (node_layer <$> Keras.layers m1)
      = (n_filters <$> concat gs) ++ (n_filters <$> (b2 :: rest2)) ++ [n_filters b1] /\
      squeeze_filters (node_layer <$> Keras.layers m2)
      = (n_filters <$> concat gs) ++ [n_filters b2].
Proof.
  destruct (SqueezeNet.__init__ Examples.base None (1 # 2) [224; 224; 3] 1000
              "glorot_uniform" (Some (l2 (1 # 1000))) None SqueezeNet.loaded)
    as [[i1|e1] s1] eqn:H1.
  2: { exfalso. vm_compute in H1. discriminate. }
  destruct (SqueezeNet.__init__ Examples.base None (1 # 2) [224; 224; 3] 10
              "he_normal" None None s1) as [[i2|e2] s2] eqn:H2.
  2: { exfalso. vm_compute in H1. injection H1 as <- <-.
       vm_compute in H2. discriminate. }
  exists i1, s1, i2, s2. split; [reflexivity|]. split; [exact H2|].
  exact (second_construction Examples.base _ _ _ _ _ _ _ _ _ _ _ _ _ _ _ _ _ _
           H1 H2).
Defined.

(** X16 on a stem without keyword arguments. *)
Lemma stem_classifier_errors_witness :
  (∅ : gmap string value) !! "reg" = None /\
  (SqueezeNet.stem Examples.base (Composable.__init__ VNone VNone VNone)
     Examples.x ∅ Examples.after_input
   = (Raise (KeyError "reg"), Examples.after_input) /\
   SqueezeNet.classifier Examples.base (Composable.__init__ VNone VNone VNone)
     Examples.x (VInt 10) ∅ Examples.after_input
   = (Raise (KeyError "reg"), Examples.after_input)) /\
  exists e s',
    SqueezeNet.classifier Examples.base (Composable.__init__ VNone VNone VNone)
      Examples.x (VInt 0) {[ "reg" := VNone ]} Examples.after_input
    = (Raise e, s') /\
    ((e = KeyError "reg" /\
      ({[ "reg" := VNone ]} : gmap string value) !! "reg" = None /\
      s' = Examples.after_input) \/
     (is_Some (({[ "reg" := VNone ]} : gmap string value) !! "reg") /\
      exists layer_name, e = FrameworkError layer_name)).
Proof.
  assert (Hn : (∅ : gmap string value) !! "reg" = None) by reflexivity.
  split; [exact Hn|]. split.
  - exact (proj1 (stem_classifier_errors Examples.base
                    (Composable.__init__ VNone VNone VNone) Examples.x (VInt 10)
                    ∅ Examples.after_input) Hn).
  - destruct (SqueezeNet.classifier Examples.base
                (Composable.__init__ VNone VNone VNone) Examples.x (VInt 0)
                {[ "reg" := VNone ]} Examples.after_input)
      as [[t|e] s'] eqn:H.
    + exfalso. vm_compute in H. discriminate.
    + exists e, s'. split; [reflexivity|].
      exact (proj2 (stem_classifier_errors Examples.base
                      (Composable.__init__ VNone VNone VNone) Examples.x _ _ _)
               _ _ (or_intror H)).
Defined.

(** ** The two ends of a model *)

Lemma input_layers_app l1 l2 :
  input_layers (l1 ++ l2) = (input_layers l1 + input_layers l2)%nat.
Proof. unfold input_layers. by rewrite filter_app, length_app. Qed.

Lemma input_layers_fires i r c bs :
  input_layers (flat_map (fun b => fire_layers (n_filters b) i r c) bs) = 0%nat.
Proof.
  induction bs as [|b bs IH]; [done|]. cbn [flat_map].
  rewrite input_layers_app, IH. done.
Qed.

Lemma input_layers_groups i r c gs :
  input_layers (flat_map (group_layers i r c) gs) = 0%nat.
Proof.
  induction gs as [|g gs IH]; [done|]. cbn [flat_map].
  unfold group_layers at 1.
  rewrite !input_layers_app, input_layers_fires, IH. done.
Qed.

Lemma input_layers_model input_shape gs b rate n iw r c :
  input_layers (model_layers input_shape gs b rate n iw r c) = 1%nat.
Proof.
  unfold model_layers, learner_layers.
  change (InputLayer input_shape :: ?l) with ([InputLayer input_shape] ++ l).
  rewrite !input_layers_app, input_layers_groups. done.
Qed.

Section Boundary.

Variable base : Composable.attributes.

(** X17: the two ends of a constructed model.  The model's input is the
    tensor of an input placeholder of the declared [input_shape], a
    height, a width and a channel count that are all positive; it is the
    first node the construction adds and the only placeholder of the
    model.  The model's output is the tensor of the softmax activation,
    which is the last node of the graph, is applied to the node before it,
    and has the one axis [n_classes], a positive number. *)
Theorem model_boundary groups dropout input_shape n_classes init_weights
    reg relu s self s' :
  SqueezeNet.__init__ base groups dropout input_shape n_classes init_weights
    reg relu s = (Ok self, s') ->
  exists m h w ch,
    Composable._model self = Some m /\
    graph s' = graph s ++ Keras.layers m /\
    input_shape = [h; w; ch] /\ 0 < h /\ 0 < w /\ 0 < ch /\
    Keras.inputs m = Tensor (length (graph s)) input_shape /\
    graph s' !! length (graph s)
    = Some (Node (InputLayer input_shape) [] input_shape) /\
    input_layers (node_layer <$> Keras.layers m) = 1%nat /\
    0 < n_classes /\
    Keras.outputs m = Tensor (Nat.pred (length (graph s'))) [n_classes] /\
    last (graph s')
    = Some (Node (LActivation "softmax") [Nat.pred (Nat.pred (length (graph s')))]
              [n_classes]).
Proof.
  intros H.
  destruct (init_Ok base _ _ _ _ _ _ _ _ _ _ H)
    as (gs & b & rest & c & m & _ & _ & _ & _ & _ & Hn & _ & Hm & Hg & Hls
        & Hi & Ho & _).
  unfold SqueezeNet.__init__ in H.
  step H as inputs s1 H1. apply Input_Ok in H1 as (Hpos & -> & ->).
  step H as x1 s2 H2.
  eapply stem_Ok in H2
    as (h & w & ch & i & r & c' & Hshape & _ & Hr & Hc & _ & _ & _ & Hg2 & ->);
    [|apply lookup_singleton_eq].
  step H as x2 s3 H3.
  eapply learner_Ok with (l := default SqueezeNet.groups_ref groups) (d := dropout)
    in H3 as (gs' & b' & rest' & _ & _ & _ & _ & (ns & Hg3 & Hns) & Hx2);
    [| by destruct groups | done | done | done | done | exact Hr | exact Hc ].
  step H as r4 s4 H4. destruct r4 as [outputs self4].
  eapply classifier_Ok in H4
    as (n & h4 & w4 & ch4 & i4 & r4 & c4 & [= <-] & _ & _ & _ & _ & _ & _ & Hg4 & _);
    [|apply lookup_singleton_eq].
  step H as m' s5 H5. unfold Keras.Model in H5. injection H5 as <- <-.
  apply ret_Ok in H as [<- <-]. simpl in *.
  subst input_shape.
  apply Forall_cons in Hpos as [Hh Hpos].
  apply Forall_cons in Hpos as [Hw Hpos].
  apply Forall_cons in Hpos as [Hch _].
  exists m, h, w, ch. do 2 (split; [done|]). do 4 (split; [done|]).
  split; [done|]. split.
  { rewrite Hg4, Hg3, Hg2, <- !app_assoc.
    rewrite lookup_app_r by lia. by rewrite Nat.sub_diag. }
  split; [by rewrite Hls, input_layers_model|].
  split; [done|]. split; [done|].
  rewrite Hg4. rewrite length_app. simpl.
  replace (Nat.pred (Nat.pred (length (graph s3) + 4))) with
    (S (S (length (graph s3)))) by lia.
  change [?a; ?b0; ?c0; ?d] with ([a; b0; c0] ++ [d]).
  rewrite app_assoc. apply last_snoc.
Qed.

End Boundary.

(** X17 on the default configuration. *)
Lemma model_boundary_witness :
  exists self s',
    SqueezeNet.__init__ Examples.base None (1 # 2) [224; 224; 3] 1000
      "glorot_uniform" (Some (l2 (1 # 1000))) None SqueezeNet.loaded
    = (Ok self, s') /\
    exists m h w ch,
      Composable._model self = Some m /\
      graph s' = graph SqueezeNet.loaded ++ Keras.layers m /\
      [224; 224; 3] = [h; w; ch] /\ 0 < h /\ 0 < w /\ 0 < ch /\
      Keras.inputs m = Tensor (length (graph SqueezeNet.loaded)) [224; 224; 3] /\
      graph s' !! length (graph SqueezeNet.loaded)
      = Some (Node (InputLayer [224; 224; 3]) [] [224; 224; 3]) /\
      input_layers (node_layer <$> Keras.layers m) = 1%nat /\
      0 < 1000 /\
      Keras.outputs m = Tensor (Nat.pred (length (graph s'))) [1000] /\
      last (graph s')
      = Some (Node (LActivation "softmax")
                [Nat.pred (Nat.pred (length (graph s')))] [1000]).
Proof.
  destruct (SqueezeNet.__init__ Examples.base None (1 # 2) [224; 224; 3] 1000
              "glorot_uniform" (Some (l2 (1 # 1000))) None SqueezeNet.loaded)
    as [[self|e] s'] eqn:H.
  - exists self, s'. split; [reflexivity|].
    exact (model_boundary Examples.base _ _ _ _ _ _ _ _ _ _ H).
  - exfalso. vm_compute in H. discriminate.
Defined.
